(** * PhantomPad: confidential crowdfunding on an FHE ledger

    A shallow embedding of the Solidity contract [PhantomPad]
    (contracts/PhantomPad.sol) and the properties of its campaign
    accounting: lifecycle, encrypted aggregation, settlement and the
    ciphertext permissions it hands out. *)

From Stdlib Require Import ZArith String List Lia.
From stdpp Require Import base gmap list strings.

Local Open Scope string_scope.
Local Open Scope Z_scope.

(** ** Solidity value types *)

(** [address] is a 160-bit integer; [address(0)] is the zero sentinel. *)
Abbreviation address := Z (only parsing).

Definition address_zero : address := 0.

Definition uint64_modulus : Z := 2 ^ 64.
Definition uint256_max : Z := 2 ^ 256 - 1.

(** ** Ciphertext handles

    Modelled from the spec: the FHE co-processor library
    ([@fhevm/solidity/lib/FHE.sol]) is an external dependency whose code is
    not part of the repository.  Section 6 of the specification lists the
    primitives the engine uses: encrypt a plaintext into a handle,
    homomorphic addition of two handles, construction of an encrypted
    boolean, a per-viewer decrypt grant, and the initialisation test.  A
    handle is represented by the computation that produced it; the
    plaintext it stands for is an unsigned 64-bit value, so homomorphic
    addition is addition modulo 2^64. *)
Inductive euint64 : Type :=
| Uninit                        (* the default value of an unwritten slot *)
| Trivial (v : Z)               (* FHE.asEuint64(v) *)
| Input (tag : Z) (v : Z)       (* a ciphertext produced outside the engine *)
| Add (a b : euint64).          (* FHE.add(a, b) *)

Inductive ebool : Type :=
| BUninit
| BTrivial (b : bool).          (* FHE.asEbool(b) *)

(** The access-control list works on handles of either type. *)
Inductive handle : Type :=
| H64 (h : euint64)
| HBool (h : ebool).

Coercion H64 : euint64 >-> handle.
Coercion HBool : ebool >-> handle.

#[global] Instance euint64_eq_dec : EqDecision euint64.
Proof. solve_decision. Defined.
#[global] Instance ebool_eq_dec : EqDecision ebool.
Proof. solve_decision. Defined.
#[global] Instance handle_eq_dec : EqDecision handle.
Proof. solve_decision. Defined.
#[global] Instance euint64_inhabited : Inhabited euint64 := populate Uninit.

(** What an authorised viewer obtains when decrypting off-chain. *)
Fixpoint decrypt (h : euint64) : Z :=
  match h with
  | Uninit => 0
  | Trivial v => v mod uint64_modulus
  | Input _ v => v mod uint64_modulus
  | Add a b => (decrypt a + decrypt b) mod uint64_modulus
  end.

Definition decrypt_bool (h : ebool) : bool :=
  match h with
  | BUninit => false
  | BTrivial b => b
  end.

(** ** Error kinds

    The names section 7 of the specification gives to the revert reasons of
    the contract. *)
Inductive ErrorKind : Type :=
| ValidationError
| NotFoundError
| AuthorizationError
| AlreadyEndedError
| ExpiredError.

Definition error_kind (reason : string) : option ErrorKind :=
  if String.eqb reason "Name required" then Some ValidationError
  else if String.eqb reason "Target required" then Some ValidationError
  else if String.eqb reason "Deadline must be in the future"
       then Some ValidationError
  else if String.eqb reason "Campaign not found" then Some NotFoundError
  else if String.eqb reason "Unsupported token" then Some AuthorizationError
  else if String.eqb reason "Only creator" then Some AuthorizationError
  else if String.eqb reason "Campaign already ended"
       then Some AlreadyEndedError
  else if String.eqb reason "Campaign expired" then Some ExpiredError
  else None.

(** ** Contract storage *)

Record Campaign : Type := {
  name : string;
  target : euint64;
  totalRaised : euint64;
  deadline : Z;
  creator : address;
  ended : bool
}.

(** An unwritten mapping slot reads as the all-zero record. *)
#[global] Instance Campaign_inhabited : Inhabited Campaign :=
  populate {| name := EmptyString; target := Uninit; totalRaised := Uninit;
              deadline := 0; creator := address_zero; ended := false |}.

Definition set_name (v : string) (c : Campaign) : Campaign :=
  {| name := v; target := target c; totalRaised := totalRaised c;
     deadline := deadline c; creator := creator c; ended := ended c |}.
Definition set_target (v : euint64) (c : Campaign) : Campaign :=
  {| name := name c; target := v; totalRaised := totalRaised c;
     deadline := deadline c; creator := creator c; ended := ended c |}.
Definition set_totalRaised (v : euint64) (c : Campaign) : Campaign :=
  {| name := name c; target := target c; totalRaised := v;
     deadline := deadline c; creator := creator c; ended := ended c |}.
Definition set_deadline (v : Z) (c : Campaign) : Campaign :=
  {| name := name c; target := target c; totalRaised := totalRaised c;
     deadline := v; creator := creator c; ended := ended c |}.
Definition set_creator (v : address) (c : Campaign) : Campaign :=
  {| name := name c; target := target c; totalRaised := totalRaised c;
     deadline := deadline c; creator := v; ended := ended c |}.
Definition set_ended (v : bool) (c : Campaign) : Campaign :=
  {| name := name c; target := target c; totalRaised := totalRaised c;
     deadline := deadline c; creator := creator c; ended := v |}.

Inductive Event : Type :=
| CampaignCreated (campaignId : Z) (name : string) (target : Z)
                  (deadline : Z) (creator : address)
| Contributed (campaignId : Z) (contributor : address)
              (encryptedAmount : euint64)
| CampaignEnded (campaignId : Z) (creator : address)
                (encryptedPayout : euint64).

(** The transaction context: [msg.sender] and [block.timestamp]. *)
Record Env : Type := {
  msg_sender : address;
  block_timestamp : Z
}.

(** How a call can revert: [require(cond, reason)], an arithmetic panic of
    checked arithmetic, or a revert without data (a failed [abi.decode]). *)
Inductive Revert : Type :=
| Error (reason : string)
| Panic (code : Z)
| Empty.

(** [abi.decode(data, (uint256))]: the first 32 bytes, big-endian; reverts
    when fewer than 32 bytes are supplied. *)
Definition be_uint (bs : list Byte.byte) : Z :=
  fold_left (fun acc b => acc * 256 + Z.of_N (Byte.to_N b)) bs 0.

Definition abi_decode_uint256 (data : list Byte.byte) : option Z :=
  if (length data <? 32)%nat then None else Some (be_uint (take 32 data)).

(** [abi.encode(uint256)], as the clients build the attached data. *)
Definition abi_encode_uint256 (n : Z) : list Byte.byte :=
  rev (map (fun i : nat =>
              match Byte.of_N (Z.to_N ((n / 256 ^ Z.of_nat i) mod 256)) with
              | Some b => b
              | None => Byte.x00
              end) (seq 0 32)).

Section Engine.

(** The payment token is a separate contract, [ConfidentialUSDC], and the
    development is parametric in it: [Ledger] is the token's own state and
    [confidentialTransfer sender to amount] its plain encrypted transfer,
    which, as section 6 of the specification has it, returns the handle
    actually transferred.  The token acts on its own state; what a token
    that calls back into the contract during a transfer would find is the
    state [staged] below, and [endCampaign_calling] puts any code, which
    may read that state and call the contract back, in the token's
    place. *)
Context {Ledger : Type}.
Variable confidentialTransfer :
  address -> address -> euint64 -> Ledger -> euint64 * Ledger.

(** Everything a transaction can read or write: the storage of the
    contract, its two immutable addresses, the co-processor's grant table,
    the event log and the token's own state. *)
Record World : Type := {
  this : address;
  paymentToken : address;
  campaignCount : Z;
  _campaigns : gmap Z Campaign;
  _contributions : gmap (Z * address) euint64;
  acl : list (handle * address);
  events : list Event;
  token : Ledger
}.

(** ** The execution monad: state passing with revert

    A reverted call carries the state it had reached when it reverted; the
    platform discards that state (see [transact]). *)
Inductive Outcome (A : Type) : Type :=
| Success (a : A) (w : World)
| Reverted (e : Revert) (w : World).
Arguments Success {A} a w.
Arguments Reverted {A} e w.

Definition M (A : Type) : Type := World -> Outcome A.

#[local] Instance M_ret : MRet M := fun A a w => Success a w.
#[local] Instance M_bind : MBind M := fun A B f m w =>
  match m w with
  | Success a w' => f a w'
  | Reverted e w' => Reverted e w'
  end.

Definition revert {A} (e : Revert) : M A := fun w => Reverted e w.
Definition gets {A} (f : World -> A) : M A := fun w => Success (f w) w.
Definition modify (f : World -> World) : M unit := fun w => Success tt (f w).

Definition require (cond : bool) (reason : string) : M unit :=
  if cond then mret tt else revert (Error reason).

Definition with_campaignCount (v : Z) (w : World) : World :=
  {| this := this w; paymentToken := paymentToken w; campaignCount := v;
     _campaigns := _campaigns w; _contributions := _contributions w;
     acl := acl w; events := events w; token := token w |}.
Definition with_campaigns (v : gmap Z Campaign) (w : World) : World :=
  {| this := this w; paymentToken := paymentToken w;
     campaignCount := campaignCount w;
     _campaigns := v; _contributions := _contributions w;
     acl := acl w; events := events w; token := token w |}.
Definition with_contributions (v : gmap (Z * address) euint64) (w : World)
  : World :=
  {| this := this w; paymentToken := paymentToken w;
     campaignCount := campaignCount w;
     _campaigns := _campaigns w; _contributions := v;
     acl := acl w; events := events w; token := token w |}.
Definition with_acl (v : list (handle * address)) (w : World) : World :=
  {| this := this w; paymentToken := paymentToken w;
     campaignCount := campaignCount w;
     _campaigns := _campaigns w; _contributions := _contributions w;
     acl := v; events := events w; token := token w |}.
Definition with_events (v : list Event) (w : World) : World :=
  {| this := this w; paymentToken := paymentToken w;
     campaignCount := campaignCount w;
     _campaigns := _campaigns w; _contributions := _contributions w;
     acl := acl w; events := v; token := token w |}.
Definition with_token (v : Ledger) (w : World) : World :=
  {| this := this w; paymentToken := paymentToken w;
     campaignCount := campaignCount w;
     _campaigns := _campaigns w; _contributions := _contributions w;
     acl := acl w; events := events w; token := v |}.

(** [_campaigns[id]] seen through a storage pointer: reading one of its
    fields and writing one of its fields. *)
Definition campaign_at (id : Z) (w : World) : Campaign := _campaigns w !!! id.

Definition campaign_read {A} (id : Z) (field : Campaign -> A) : M A :=
  gets (fun w => field (campaign_at id w)).

Definition campaign_write (id : Z) (f : Campaign -> Campaign) : M unit :=
  modify (fun w => with_campaigns (<[id := f (campaign_at id w)]> (_campaigns w)) w).

Definition contribution_at (id : Z) (user : address) (w : World) : euint64 :=
  _contributions w !!! (id, user).

Definition contribution_write (id : Z) (user : address) (v : euint64) : M unit :=
  modify (fun w => with_contributions (<[(id, user) := v]> (_contributions w)) w).

Definition emit (e : Event) : M unit :=
  modify (fun w => with_events (events w ++ [e]) w).

(** [++campaignCount] under checked arithmetic. *)
Definition increment_campaignCount : M Z := fun w =>
  if campaignCount w + 1 <=? uint256_max
  then Success (campaignCount w + 1) (with_campaignCount (campaignCount w + 1) w)
  else Reverted (Panic 17) w.

(** ** The FHE library, as the contract calls it *)

Definition FHE_asEuint64 (v : Z) : euint64 := Trivial v.
Definition FHE_asEbool (b : bool) : ebool := BTrivial b.
(** [FHE.add] is the operation on the two ciphertexts.  The co-processor
    also checks that the calling contract may use both operands and reverts
    otherwise; that check is not modelled, so a callback that returns here
    is one whose operands the contract may use. *)
Definition FHE_add (a b : euint64) : euint64 := Add a b.
Definition FHE_isInitialized (h : euint64) : bool :=
  match h with Uninit => false | _ => true end.

(** [FHE.allow(h, who)] adds a persistent grant; nothing removes one. *)
Definition FHE_allow (h : handle) (who : address) : M unit :=
  modify (fun w => with_acl (acl w ++ [(h, who)]) w).
Definition FHE_allowThis (h : handle) : M unit :=
  self ← gets this; FHE_allow h self.

(** The off-chain decrypt path consults the grant table. *)
Definition isAllowed (h : handle) (who : address) (w : World) : bool :=
  bool_decide ((h, who) ∈ acl w).

(** [paymentToken.confidentialTransfer(to, amount)] called by the engine. *)
Definition paymentToken_confidentialTransfer (to : address) (amount : euint64)
  : M euint64 := fun w =>
  let '(transferred, l) := confidentialTransfer (this w) to amount (token w) in
  Success transferred (with_token l w).

(** ** The contract

    Arguments range over the values of their Solidity types; the statements
    below are transcribed in order, one monadic step each. *)

Definition constructor (self tokenAddress : address) (l : Ledger) : World :=
  {| this := self; paymentToken := tokenAddress; campaignCount := 0;
     _campaigns := ∅; _contributions := ∅; acl := []; events := [];
     token := l |}.

Definition createCampaign (env : Env) (name : string) (target deadline : Z)
  : M Z :=
  require (0 <? Z.of_nat (String.length name)) "Name required";;
  require (0 <? target) "Target required";;
  require (block_timestamp env <? deadline) "Deadline must be in the future";;
  campaignId ← increment_campaignCount;
  let encryptedTarget := FHE_asEuint64 target in
  let initialRaised := FHE_asEuint64 0 in
  campaign_write campaignId (set_name name);;
  campaign_write campaignId (set_target encryptedTarget);;
  campaign_write campaignId (set_totalRaised initialRaised);;
  campaign_write campaignId (set_deadline deadline);;
  campaign_write campaignId (set_creator (msg_sender env));;
  campaign_write campaignId (set_ended false);;
  FHE_allowThis encryptedTarget;;
  FHE_allow encryptedTarget (msg_sender env);;
  FHE_allowThis initialRaised;;
  FHE_allow initialRaised (msg_sender env);;
  emit (CampaignCreated campaignId name target deadline (msg_sender env));;
  mret campaignId.

Definition onConfidentialTransferReceived (env : Env) (operator from : address)
    (amount : euint64) (data : list Byte.byte) : M ebool :=
  token_address ← gets paymentToken;
  require (bool_decide (msg_sender env = token_address)) "Unsupported token";;
  campaignId ← match abi_decode_uint256 data with
                | Some id => mret id
                | None => revert Empty
                end;
  campaign_creator ← campaign_read campaignId creator;
  require (negb (bool_decide (campaign_creator = address_zero)))
          "Campaign not found";;
  campaign_ended ← campaign_read campaignId ended;
  require (negb campaign_ended) "Campaign already ended";;
  campaign_deadline ← campaign_read campaignId deadline;
  require (block_timestamp env <=? campaign_deadline) "Campaign expired";;
  campaign_totalRaised ← campaign_read campaignId totalRaised;
  let updatedTotal := FHE_add campaign_totalRaised amount in
  campaign_write campaignId (set_totalRaised updatedTotal);;
  FHE_allowThis updatedTotal;;
  campaign_creator ← campaign_read campaignId creator;
  FHE_allow updatedTotal campaign_creator;;
  FHE_allow updatedTotal from;;
  stored ← gets (contribution_at campaignId from);
  let currentContribution :=
    if negb (FHE_isInitialized stored) then FHE_asEuint64 0 else stored in
  let updatedContribution := FHE_add currentContribution amount in
  contribution_write campaignId from updatedContribution;;
  FHE_allowThis updatedContribution;;
  FHE_allow updatedContribution from;;
  emit (Contributed campaignId from amount);;
  let accepted := FHE_asEbool true in
  FHE_allowThis accepted;;
  FHE_allow accepted (msg_sender env);;
  mret accepted.

(** [endCampaign] up to, but not including, the outbound call to the
    token: the checks, the two storage writes and the grants on the
    captured payout. *)
Definition endCampaign_staged (env : Env) (campaignId : Z) : M euint64 :=
  campaign_creator ← campaign_read campaignId creator;
  require (negb (bool_decide (campaign_creator = address_zero)))
          "Campaign not found";;
  campaign_creator ← campaign_read campaignId creator;
  require (bool_decide (msg_sender env = campaign_creator)) "Only creator";;
  campaign_ended ← campaign_read campaignId ended;
  require (negb campaign_ended) "Campaign already ended";;
  campaign_write campaignId (set_ended true);;
  payout ← campaign_read campaignId totalRaised;
  FHE_allowThis (H64 payout);;
  FHE_allow (H64 payout) (msg_sender env);;
  campaign_write campaignId (set_totalRaised (FHE_asEuint64 0));;
  mret payout.

Definition endCampaign (env : Env) (campaignId : Z) : M euint64 :=
  payout ← endCampaign_staged env campaignId;
  payout ← paymentToken_confidentialTransfer (msg_sender env) payout;
  emit (CampaignEnded campaignId (msg_sender env) payout);;
  mret payout.

(** [endCampaign] with any code at the token's address: the callee is
    handed control on the contract's state as it is at the call, can read
    it, and can call the contract back before it returns a handle.
    [endCampaign] is the case of [paymentToken_confidentialTransfer]. *)
Definition endCampaign_calling (external : address -> euint64 -> M euint64)
    (env : Env) (campaignId : Z) : M euint64 :=
  payout ← endCampaign_staged env campaignId;
  payout ← external (msg_sender env) payout;
  emit (CampaignEnded campaignId (msg_sender env) payout);;
  mret payout.

(** A call whose revert the caller catches: the writes of the failed call
    are dropped and the caller goes on with the reason. *)
Definition attempt {A} (m : M A) : M (Revert + A) := fun w =>
  match m w with
  | Success a w' => Success (inr a) w'
  | Reverted e _ => Success (inl e) w
  end.

(** Code for the token's place that first calls the contract back, with
    [reentry], and goes on as [k] says with what came of it; and code that
    first reads the contract through a view. *)
Definition calling_back {A} (reentry : M A)
    (k : Revert + A -> address -> euint64 -> M euint64)
  : address -> euint64 -> M euint64 :=
  fun to amount => r ← attempt reentry; k r to amount.

Definition looking {A} (view : World -> A)
    (k : A -> address -> euint64 -> M euint64)
  : address -> euint64 -> M euint64 :=
  fun to amount => seen ← gets view; k seen to amount.

Definition getCampaign (campaignId : Z) (w : World)
  : string * euint64 * Z * bool * euint64 * address :=
  let campaign := campaign_at campaignId w in
  (name campaign, target campaign, deadline campaign, ended campaign,
   totalRaised campaign, creator campaign).

Definition contributionOf (campaignId : Z) (user : address) (w : World)
  : euint64 := contribution_at campaignId user w.

Definition isCampaignActive (env : Env) (campaignId : Z) (w : World) : bool :=
  let campaign := campaign_at campaignId w in
  negb (bool_decide (creator campaign = address_zero))
  && negb (ended campaign)
  && (block_timestamp env <=? deadline campaign).

(** ** Transactions and traces *)

Inductive Call : Type :=
| CreateCampaign (name : string) (target deadline : Z)
| OnConfidentialTransferReceived (operator from : address) (amount : euint64)
                                 (data : list Byte.byte)
| EndCampaign (campaignId : Z).

Inductive Return : Type :=
| ReturnedId (campaignId : Z)
| ReturnedFlag (accepted : ebool)
| ReturnedPayout (payout : euint64).

Definition call (env : Env) (c : Call) : M Return :=
  match c with
  | CreateCampaign name target deadline =>
      id ← createCampaign env name target deadline; mret (ReturnedId id)
  | OnConfidentialTransferReceived operator from amount data =>
      flag ← onConfidentialTransferReceived env operator from amount data;
      mret (ReturnedFlag flag)
  | EndCampaign campaignId =>
      payout ← endCampaign env campaignId; mret (ReturnedPayout payout)
  end.

(** A transaction commits the state it reached, or, when it reverts, leaves
    the state it started from. *)
Definition transact (tx : Env * Call) (w : World) : World * (Revert + Return) :=
  match call tx.1 tx.2 w with
  | Success r w' => (w', inr r)
  | Reverted e _ => (w, inl e)
  end.

Fixpoint run (txs : list (Env * Call)) (w : World) : World :=
  match txs with
  | [] => w
  | tx :: rest => run rest (transact tx w).1
  end.

(** The campaign ids handed out by the successful creations of a trace, in
    order. *)
Fixpoint created_ids (txs : list (Env * Call)) (w : World) : list Z :=
  match txs with
  | [] => []
  | tx :: rest =>
      match (transact tx w).2 with
      | inr (ReturnedId id) => [id]
      | _ => []
      end ++ created_ids rest (transact tx w).1
  end.

(** The contributions a trace got accepted: campaign, contributor and the
    ciphertext amount of every callback that did not revert. *)
Definition accepted_by (tx : Env * Call) (w : World)
  : list (Z * address * euint64) :=
  match tx.2, (transact tx w).2 with
  | OnConfidentialTransferReceived _ from amount data, inr _ =>
      match abi_decode_uint256 data with
      | Some id => [(id, from, amount)]
      | None => []
      end
  | _, _ => []
  end.

Fixpoint accepted (txs : list (Env * Call)) (w : World)
  : list (Z * address * euint64) :=
  match txs with
  | [] => []
  | tx :: rest => accepted_by tx w ++ accepted rest (transact tx w).1
  end.

(** The number of successful [endCampaign] calls on one campaign. *)
Definition settles (campaignId : Z) (tx : Env * Call) (w : World) : bool :=
  match tx.2, (transact tx w).2 with
  | EndCampaign id, inr _ => bool_decide (id = campaignId)
  | _, _ => false
  end.

Fixpoint settlements (campaignId : Z) (txs : list (Env * Call)) (w : World)
  : nat :=
  match txs with
  | [] => 0%nat
  | tx :: rest =>
      ((if settles campaignId tx w then 1 else 0)
       + settlements campaignId rest (transact tx w).1)%nat
  end.

(** What every state reachable from [constructor] satisfies: the counter
    is not negative and no slot above it has been written. *)
Definition wf (w : World) : Prop :=
  0 <= campaignCount w /\
  forall id, campaignCount w < id -> _campaigns w !! id = None.

(** ** Closed forms of the states the three operations commit *)

Definition created (env : Env) (name : string) (target deadline : Z)
    (w : World) : World :=
  let campaignId := campaignCount w + 1 in
  {| this := this w; paymentToken := paymentToken w;
     campaignCount := campaignId;
     _campaigns :=
       <[campaignId :=
           {| name := name; target := FHE_asEuint64 target;
              totalRaised := FHE_asEuint64 0; deadline := deadline;
              creator := msg_sender env; ended := false |}]> (_campaigns w);
     _contributions := _contributions w;
     acl := acl w ++ [(H64 (FHE_asEuint64 target), this w);
                      (H64 (FHE_asEuint64 target), msg_sender env);
                      (H64 (FHE_asEuint64 0), this w);
                      (H64 (FHE_asEuint64 0), msg_sender env)];
     events := events w ++ [CampaignCreated campaignId name target deadline
                                            (msg_sender env)];
     token := token w |}.

Definition next_contribution (stored amount : euint64) : euint64 :=
  FHE_add (if negb (FHE_isInitialized stored) then FHE_asEuint64 0 else stored)
          amount.

Definition contributed (env : Env) (from : address) (amount : euint64)
    (campaignId : Z) (w : World) : World :=
  let campaign := campaign_at campaignId w in
  let updatedTotal := FHE_add (totalRaised campaign) amount in
  let updatedContribution :=
    next_contribution (contribution_at campaignId from w) amount in
  {| this := this w; paymentToken := paymentToken w;
     campaignCount := campaignCount w;
     _campaigns :=
       <[campaignId := set_totalRaised updatedTotal campaign]> (_campaigns w);
     _contributions :=
       <[(campaignId, from) := updatedContribution]> (_contributions w);
     acl := acl w ++ [(H64 updatedTotal, this w);
                      (H64 updatedTotal, creator campaign);
                      (H64 updatedTotal, from);
                      (H64 updatedContribution, this w);
                      (H64 updatedContribution, from);
                      (HBool (FHE_asEbool true), this w);
                      (HBool (FHE_asEbool true), msg_sender env)];
     events := events w ++ [Contributed campaignId from amount];
     token := token w |}.

Definition staged (env : Env) (campaignId : Z) (w : World) : World :=
  let campaign := campaign_at campaignId w in
  {| this := this w; paymentToken := paymentToken w;
     campaignCount := campaignCount w;
     _campaigns :=
       <[campaignId :=
           set_totalRaised (FHE_asEuint64 0) (set_ended true campaign)]>
         (_campaigns w);
     _contributions := _contributions w;
     acl := acl w ++ [(H64 (totalRaised campaign), this w);
                      (H64 (totalRaised campaign), msg_sender env)];
     events := events w;
     token := token w |}.

Definition settled (env : Env) (campaignId : Z) (w : World) : World :=
  let s := staged env campaignId w in
  let payout := totalRaised (campaign_at campaignId w) in
  let moved := confidentialTransfer (this w) (msg_sender env) payout (token w) in
  with_events (events w ++ [CampaignEnded campaignId (msg_sender env) moved.1])
              (with_token moved.2 s).

End Engine.

Arguments World Ledger : clear implicits.
Arguments Outcome Ledger A : clear implicits.
Arguments M Ledger A : clear implicits.
Arguments Success {Ledger A} a w.
Arguments Reverted {Ledger A} e w.

(** The integer sum of the plaintexts of a list of ciphertext amounts. *)
Definition sum_amounts (l : list euint64) : Z :=
  foldr (fun h s => decrypt h + s) 0 l.

(** The amounts accepted for one campaign, and those of one contributor. *)
Definition amounts_to (campaignId : Z) (l : list (Z * address * euint64))
  : list euint64 :=
  map snd (filter (fun e => e.1.1 = campaignId) l).

Definition amounts_of (campaignId : Z) (contributor : address)
    (l : list (Z * address * euint64)) : list euint64 :=
  map snd (filter (fun e => e.1 = (campaignId, contributor)) l).

(** The accounting a state owes to the contributions accepted so far: no
    contribution went to a slot above the counter, the total of every
    campaign that is not ended and every contributor's entry decrypt to the
    sum of the amounts accepted for them, reduced modulo 2^64. *)
Definition accounted {Ledger} (w : World Ledger)
    (log : list (Z * address * euint64)) : Prop :=
  (forall id, campaignCount w < id -> amounts_to id log = []) /\
  (forall id,
     ended (campaign_at id w) = false ->
     decrypt (totalRaised (campaign_at id w))
       = sum_amounts (amounts_to id log) mod uint64_modulus) /\
  (forall id user,
     decrypt (contribution_at id user w)
       = sum_amounts (amounts_of id user log) mod uint64_modulus).

(** The permissions a state owes to what it stores: the target and the
    total of every written campaign record, and the encrypted zero a
    settlement leaves behind, may be decrypted by the contract and by the
    record's creator; every written entry by the contract and by its
    contributor. *)
Definition granted {Ledger} (w : World Ledger) : Prop :=
  (forall id campaign,
     _campaigns w !! id = Some campaign ->
     isAllowed (H64 (target campaign)) (creator campaign) w = true /\
     isAllowed (H64 (target campaign)) (this w) w = true /\
     isAllowed (H64 (totalRaised campaign)) (creator campaign) w = true /\
     isAllowed (H64 (totalRaised campaign)) (this w) w = true /\
     isAllowed (H64 (FHE_asEuint64 0)) (creator campaign) w = true /\
     isAllowed (H64 (FHE_asEuint64 0)) (this w) w = true) /\
  (forall id user entry,
     _contributions w !! (id, user) = Some entry ->
     isAllowed (H64 entry) user w = true /\
     isAllowed (H64 entry) (this w) w = true).

(** ** A reference token for the examples

    It keeps a journal of the transfers it was asked to make and hands back
    the handle it was given. *)
Definition Journal : Type := list (address * address * euint64).

Definition journal_transfer (sender to : address) (amount : euint64)
    (l : Journal) : euint64 * Journal :=
  (amount, (l ++ [(sender, to, amount)])%list).

(** ** Sample worlds *)

Definition engine_address : address := 100.
Definition token_address : address := 200.
Definition alice : address := 7.
Definition bob : address := 8.

Definition fresh : World Journal := constructor engine_address token_address [].

Definition at_time (sender : address) (now : Z) : Env :=
  {| msg_sender := sender; block_timestamp := now |}.

(** Alice launches a campaign with target 1000 and deadline 3610; Bob's
    transfers reach the contract through the token. *)
Definition one : list Byte.byte := abi_encode_uint256 1.

Definition launch : Env * Call :=
  (at_time alice 10, CreateCampaign "Test Launch" 1000 3610).

Definition pledge (amount : euint64) (now : Z) : Env * Call :=
  (at_time token_address now,
   OnConfidentialTransferReceived bob bob amount one).

Definition launched : World Journal := run journal_transfer [launch] fresh.

Definition funded : World Journal :=
  run journal_transfer [launch; pledge (Input 1 750) 20] fresh.

(** A token that keeps a record of what came of its calling [endCampaign]
    back from inside a transfer, and the funded campaign with that token. *)
Definition Probes : Type := list (Revert + euint64).

Definition quiet : address -> euint64 -> M Probes euint64 :=
  fun _ amount w => Success amount w.

Definition noting (r : Revert + euint64)
  : address -> euint64 -> M Probes euint64 :=
  fun _ amount w => Success amount (with_token (token w ++ [r])%list w).

Definition probing (env' : Env) (campaignId : Z)
  : address -> euint64 -> M Probes euint64 :=
  calling_back (endCampaign_calling quiet env' campaignId) noting.

Definition funded_probed : World Probes :=
  run (fun _ _ amount l => (amount, l)) [launch; pledge (Input 1 750) 20]
      (constructor engine_address token_address []).

(** Two pledges of 2^63 each. *)
Definition half : euint64 := Input 2 (2 ^ 63).

Definition overflowing : list (Env * Call) :=
  [launch; pledge half 20; pledge half 21].


(** ** The rest of the contract's surface *)

(** [treasuryBalance()]: the token's balance query, asked for the contract's
    own address; the query, like the transfer, belongs to the token. *)
Definition treasuryBalance {Ledger}
    (confidentialBalanceOf : address -> Ledger -> euint64)
    (w : World Ledger) : euint64 :=
  confidentialBalanceOf (this w) (token w).

(** The slots that hold something: campaign records sit at the ids from 1
    to the counter and nowhere else, and contribution entries only under
    such ids. *)
Definition indexed {Ledger} (w : World Ledger) : Prop :=
  0 <= campaignCount w /\
  (forall id, is_Some (_campaigns w !! id) <-> 1 <= id <= campaignCount w) /\
  (forall id user,
     is_Some (_contributions w !! (id, user)) -> 1 <= id <= campaignCount w).

(** The number of transactions of a trace that commit. *)
Fixpoint commits {Ledger}
    (confidentialTransfer :
       address -> address -> euint64 -> Ledger -> euint64 * Ledger)
    (txs : list (Env * Call)) (w : World Ledger) : nat :=
  match txs with
  | [] => 0%nat
  | tx :: rest =>
      ((match (transact confidentialTransfer tx w).2 with
        | inr _ => 1
        | inl _ => 0
        end)
       + commits confidentialTransfer rest
           (transact confidentialTransfer tx w).1)%nat
  end.

(** ** The client (frontend/src/components/PhantomPadApp.tsx)

    A JavaScript string is its sequence of UTF-16 code units. *)
Abbreviation code_units := (list Z) (only parsing).

Definition of_ascii (s : string) : code_units :=
  map (fun c => Z.of_N (Ascii.N_of_ascii c)) (list_ascii_of_string s).

(** What [String.prototype.trim] strips: the WhiteSpace and LineTerminator
    code points of ECMAScript, all of them single code units. *)
Definition is_whitespace (c : Z) : bool :=
  bool_decide (c ∈ [9; 10; 11; 12; 13; 32; 160; 5760; 8232; 8233; 8239; 8287;
                    12288; 65279])
  || ((8192 <=? c) && (c <=? 8202)).

Fixpoint dropWhile {A} (f : A -> bool) (l : list A) : list A :=
  match l with
  | [] => []
  | x :: rest => if f x then dropWhile f rest else l
  end.

Definition trim (s : code_units) : code_units :=
  rev (dropWhile is_whitespace (rev (dropWhile is_whitespace s))).

(** [/^\d+$/.test(s)]: without flags, one or more of the digits 0 to 9 and
    nothing else. *)
Definition is_digit (c : Z) : bool := (48 <=? c) && (c <=? 57).

Definition all_digits (s : code_units) : bool :=
  match s with
  | [] => false
  | _ => forallb is_digit s
  end.

(** [BigInt(s)] on a string of decimal digits. *)
Definition BigInt_of_digits (s : code_units) : Z :=
  fold_left (fun acc c => acc * 10 + (c - 48)) s 0.

Definition UINT64_MAX : Z := 2 ^ 64 - 1.

Inductive Parsed : Type :=
| Value (value : Z)
| Throws (message : string).

Definition parseUint64 (raw : code_units) : Parsed :=
  let cleaned := trim raw in
  if negb (all_digits cleaned) then Throws "Enter a whole number amount."
  else
    let value := BigInt_of_digits cleaned in
    if value <=? 0 then Throws "Amount must be greater than zero."
    else if UINT64_MAX <? value then Throws "Amount exceeds uint64 range."
    else Value value.

(** [BigInt.prototype.toString()], with which the client shows a decrypted
    amount: the decimal digits of a non-negative integer, most significant
    first. *)
Fixpoint digits_from (fuel : nat) (n : Z) (acc : code_units) : code_units :=
  match fuel with
  | O => acc
  | S fuel' =>
      let acc' := (48 + n mod 10) :: acc in
      if n <? 10 then acc' else digits_from fuel' (n / 10) acc'
  end.

Definition toString (n : Z) : code_units :=
  digits_from (S (Z.to_nat (Z.log2 n))) n [].

(** The ids the client lists: [Array.from({ length: campaignCount },
    (_, index) => index + 1)], the empty list when the count is absent or
    zero.  The count is converted with [Number], which is exact below
    2^53, and an array holds fewer than 2^32 elements. *)
Definition campaignIds (campaignCountRaw : option Z) : list Z :=
  let campaignCount := default 0 campaignCountRaw in
  if campaignCount =? 0 then []
  else map (fun index : nat => Z.of_nat index + 1)
           (seq 0 (Z.to_nat campaignCount)).


(** * Properties *)

Section Properties.

Context {Ledger : Type}.
Variable confidentialTransfer :
  address -> address -> euint64 -> Ledger -> euint64 * Ledger.

Implicit Types (w : World Ledger) (env : Env) (tx : Env * Call).

(** ** Stepping through the monadic code *)

Lemma World_eq w1 w2 :
  this w1 = this w2 -> paymentToken w1 = paymentToken w2 ->
  campaignCount w1 = campaignCount w2 -> _campaigns w1 = _campaigns w2 ->
  _contributions w1 = _contributions w2 -> acl w1 = acl w2 ->
  events w1 = events w2 -> token w1 = token w2 -> w1 = w2.
Proof. destruct w1, w2; cbn; intros; subst; reflexivity. Qed.

Ltac proj_simpl :=
  cbv [campaign_at contribution_at];
  cbn [this paymentToken campaignCount _campaigns _contributions acl events
       token with_campaignCount with_campaigns with_contributions with_acl
       with_events with_token created contributed staged settled].

Ltac run_monad :=
  cbv [mbind M_bind mret M_ret require revert gets modify campaign_read
       campaign_write contribution_write FHE_allow FHE_allowThis emit
       increment_campaignCount paymentToken_confidentialTransfer];
  proj_simpl.

Ltac world_eq :=
  apply World_eq; proj_simpl;
  rewrite ?lookup_total_insert_eq, ?insert_insert_eq, <- ?app_assoc;
  try reflexivity.

Lemma createCampaign_eq env nm tg dl w :
  createCampaign env nm tg dl w =
    if negb (0 <? Z.of_nat (String.length nm))
    then Reverted (Error "Name required") w
    else if negb (0 <? tg) then Reverted (Error "Target required") w
    else if negb (block_timestamp env <? dl)
         then Reverted (Error "Deadline must be in the future") w
    else if negb (campaignCount w + 1 <=? uint256_max)
         then Reverted (Panic 17) w
    else Success (campaignCount w + 1) (created env nm tg dl w).
Proof.
  unfold createCampaign.
  destruct (0 <? Z.of_nat (String.length nm)); run_monad; [|reflexivity].
  destruct (0 <? tg); cbn [negb]; [|reflexivity].
  destruct (block_timestamp env <? dl); cbn [negb]; [|reflexivity].
  destruct (campaignCount w + 1 <=? uint256_max); cbn [negb]; [|reflexivity].
  f_equal. world_eq.
Qed.

Lemma onConfidentialTransferReceived_eq env operator from amount data w :
  onConfidentialTransferReceived env operator from amount data w =
    if negb (bool_decide (msg_sender env = paymentToken w))
    then Reverted (Error "Unsupported token") w
    else match abi_decode_uint256 data with
         | None => Reverted Empty w
         | Some campaignId =>
             let campaign := campaign_at campaignId w in
             if bool_decide (creator campaign = address_zero)
             then Reverted (Error "Campaign not found") w
             else if ended campaign
                  then Reverted (Error "Campaign already ended") w
             else if negb (block_timestamp env <=? deadline campaign)
                  then Reverted (Error "Campaign expired") w
             else Success (FHE_asEbool true)
                          (contributed env from amount campaignId w)
         end.
Proof.
  unfold onConfidentialTransferReceived. run_monad.
  destruct (bool_decide (msg_sender env = paymentToken w)); cbn [negb];
    [|reflexivity].
  destruct (abi_decode_uint256 data) as [campaignId|]; [|reflexivity].
  cbv zeta.
  destruct (bool_decide (creator (_campaigns w !!! campaignId) = address_zero));
    cbn [negb]; [reflexivity|].
  destruct (ended (_campaigns w !!! campaignId)); cbn [negb]; [reflexivity|].
  destruct (block_timestamp env <=? deadline (_campaigns w !!! campaignId));
    cbn [negb]; [|reflexivity].
  f_equal. world_eq.
Qed.

Lemma endCampaign_staged_eq env campaignId w :
  endCampaign_staged env campaignId w =
    let campaign := campaign_at campaignId w in
    if bool_decide (creator campaign = address_zero)
    then Reverted (Error "Campaign not found") w
    else if negb (bool_decide (msg_sender env = creator campaign))
         then Reverted (Error "Only creator") w
    else if ended campaign then Reverted (Error "Campaign already ended") w
    else Success (totalRaised campaign) (staged env campaignId w).
Proof.
  unfold endCampaign_staged. run_monad. cbv zeta.
  destruct (bool_decide (creator (_campaigns w !!! campaignId) = address_zero));
    cbn [negb]; [reflexivity|].
  destruct (bool_decide (msg_sender env = creator (_campaigns w !!! campaignId)));
    cbn [negb]; [|reflexivity].
  destruct (ended (_campaigns w !!! campaignId)); cbn [negb]; [reflexivity|].
  rewrite ?lookup_total_insert_eq. cbn [totalRaised set_ended].
  f_equal. world_eq.
Qed.

Lemma endCampaign_eq env campaignId w :
  endCampaign confidentialTransfer env campaignId w =
    match endCampaign_staged env campaignId w with
    | Reverted e w' => Reverted e w'
    | Success payout s =>
        let moved :=
          confidentialTransfer (this s) (msg_sender env) payout (token s) in
        Success moved.1
          (with_events (events s ++ [CampaignEnded campaignId (msg_sender env)
                                                   moved.1])
                       (with_token moved.2 s))
    end.
Proof.
  unfold endCampaign. cbv [mbind M_bind].
  destruct (endCampaign_staged env campaignId w) as [payout s|e s];
    [|reflexivity].
  run_monad.
  destruct (confidentialTransfer (this s) (msg_sender env) payout (token s))
    as [moved l].
  reflexivity.
Qed.

Lemma endCampaign_closed env campaignId w :
  endCampaign confidentialTransfer env campaignId w =
    let campaign := campaign_at campaignId w in
    if bool_decide (creator campaign = address_zero)
    then Reverted (Error "Campaign not found") w
    else if negb (bool_decide (msg_sender env = creator campaign))
         then Reverted (Error "Only creator") w
    else if ended campaign then Reverted (Error "Campaign already ended") w
    else Success
           (confidentialTransfer (this w) (msg_sender env)
                                 (totalRaised campaign) (token w)).1
           (settled confidentialTransfer env campaignId w).
Proof.
  rewrite endCampaign_eq, endCampaign_staged_eq. cbv zeta.
  destruct (bool_decide (creator (campaign_at campaignId w) = address_zero));
    [reflexivity|].
  destruct (bool_decide (msg_sender env = creator (campaign_at campaignId w)));
    cbn [negb]; [|reflexivity].
  destruct (ended (campaign_at campaignId w)); reflexivity.
Qed.

Lemma length_zero_empty (nm : string) :
  (0 <? Z.of_nat (String.length nm)) = false <-> nm = EmptyString.
Proof.
  destruct nm; cbn; split; intros H; try reflexivity; discriminate.
Qed.

Lemma createCampaign_success env nm tg dl w id w' :
  createCampaign env nm tg dl w = Success id w' ->
  nm <> EmptyString /\ 0 < tg /\ block_timestamp env < dl /\
  campaignCount w + 1 <= uint256_max /\
  id = campaignCount w + 1 /\ w' = created env nm tg dl w.
Proof.
  rewrite createCampaign_eq.
  destruct (0 <? Z.of_nat (String.length nm)) eqn:Hn; cbn [negb];
    [|discriminate].
  destruct (0 <? tg) eqn:Ht; cbn [negb]; [|discriminate].
  destruct (block_timestamp env <? dl) eqn:Hd; cbn [negb]; [|discriminate].
  destruct (campaignCount w + 1 <=? uint256_max) eqn:Hc; cbn [negb];
    [|discriminate].
  intros [= <- <-].
  apply Z.ltb_lt in Ht, Hd. apply Z.leb_le in Hc.
  repeat split; try assumption.
  intros ->. discriminate Hn.
Qed.

Lemma createCampaign_reverted env nm tg dl w e w' :
  createCampaign env nm tg dl w = Reverted e w' -> w' = w.
Proof.
  rewrite createCampaign_eq. repeat case_match; congruence.
Qed.

Lemma onConfidentialTransferReceived_success env operator from amount data w
    flag w' :
  onConfidentialTransferReceived env operator from amount data w
    = Success flag w' ->
  msg_sender env = paymentToken w /\
  exists campaignId,
    abi_decode_uint256 data = Some campaignId /\
    creator (campaign_at campaignId w) <> address_zero /\
    ended (campaign_at campaignId w) = false /\
    block_timestamp env <= deadline (campaign_at campaignId w) /\
    flag = FHE_asEbool true /\
    w' = contributed env from amount campaignId w.
Proof.
  rewrite onConfidentialTransferReceived_eq.
  case_bool_decide as Hs; cbn [negb]; [|discriminate].
  destruct (abi_decode_uint256 data) as [campaignId|]; [|discriminate].
  cbv zeta.
  case_bool_decide as Hc; [discriminate|].
  destruct (ended (campaign_at campaignId w)) eqn:He; [discriminate|].
  destruct (block_timestamp env <=? deadline (campaign_at campaignId w))
    eqn:Hd; cbn [negb]; [|discriminate].
  intros [= <- <-]. apply Z.leb_le in Hd.
  split; [assumption|]. exists campaignId. repeat split; assumption.
Qed.

Lemma onConfidentialTransferReceived_reverted env operator from amount data w
    e w' :
  onConfidentialTransferReceived env operator from amount data w
    = Reverted e w' -> w' = w.
Proof.
  rewrite onConfidentialTransferReceived_eq. cbv zeta.
  repeat case_match; congruence.
Qed.

Lemma endCampaign_staged_success env campaignId w payout s :
  endCampaign_staged env campaignId w = Success payout s ->
  creator (campaign_at campaignId w) <> address_zero /\
  msg_sender env = creator (campaign_at campaignId w) /\
  ended (campaign_at campaignId w) = false /\
  payout = totalRaised (campaign_at campaignId w) /\
  s = staged env campaignId w.
Proof.
  rewrite endCampaign_staged_eq. cbv zeta.
  case_bool_decide as Hc; [discriminate|].
  case_bool_decide as Hs; cbn [negb]; [|discriminate].
  destruct (ended (campaign_at campaignId w)) eqn:He; [discriminate|].
  intros [= <- <-]. repeat split; assumption.
Qed.

Lemma endCampaign_success env campaignId w payout w' :
  endCampaign confidentialTransfer env campaignId w = Success payout w' ->
  creator (campaign_at campaignId w) <> address_zero /\
  msg_sender env = creator (campaign_at campaignId w) /\
  ended (campaign_at campaignId w) = false /\
  payout = (confidentialTransfer (this w) (msg_sender env)
              (totalRaised (campaign_at campaignId w)) (token w)).1 /\
  w' = settled confidentialTransfer env campaignId w.
Proof.
  rewrite endCampaign_closed. cbv zeta.
  case_bool_decide as Hc; [discriminate|].
  case_bool_decide as Hs; cbn [negb]; [|discriminate].
  destruct (ended (campaign_at campaignId w)) eqn:He; [discriminate|].
  intros [= <- <-]. repeat split; assumption.
Qed.

Lemma endCampaign_reverted env campaignId w e w' :
  endCampaign confidentialTransfer env campaignId w = Reverted e w' -> w' = w.
Proof.
  rewrite endCampaign_closed. cbv zeta. repeat case_match; congruence.
Qed.

Lemma transact_create env nm tg dl w :
  transact confidentialTransfer (env, CreateCampaign nm tg dl) w =
    match createCampaign env nm tg dl w with
    | Success id w' => (w', inr (ReturnedId id))
    | Reverted e _ => (w, inl e)
    end.
Proof.
  unfold transact. cbn [fst snd call]. cbv [mbind M_bind mret M_ret].
  destruct (createCampaign env nm tg dl w); reflexivity.
Qed.

Lemma transact_transfer env operator from amount data w :
  transact confidentialTransfer
    (env, OnConfidentialTransferReceived operator from amount data) w =
    match onConfidentialTransferReceived env operator from amount data w with
    | Success flag w' => (w', inr (ReturnedFlag flag))
    | Reverted e _ => (w, inl e)
    end.
Proof.
  unfold transact. cbn [fst snd call]. cbv [mbind M_bind mret M_ret].
  destruct (onConfidentialTransferReceived env operator from amount data w);
    reflexivity.
Qed.

Lemma transact_end env campaignId w :
  transact confidentialTransfer (env, EndCampaign campaignId) w =
    match endCampaign confidentialTransfer env campaignId w with
    | Success payout w' => (w', inr (ReturnedPayout payout))
    | Reverted e _ => (w, inl e)
    end.
Proof.
  unfold transact. cbn [fst snd call]. cbv [mbind M_bind mret M_ret].
  destruct (endCampaign confidentialTransfer env campaignId w); reflexivity.
Qed.

(** ** Reading the committed states *)

Lemma campaign_at_created env nm tg dl w id :
  campaign_at id (created env nm tg dl w) =
    if decide (campaignCount w + 1 = id)
    then {| name := nm; target := FHE_asEuint64 tg;
            totalRaised := FHE_asEuint64 0; deadline := dl;
            creator := msg_sender env; ended := false |}
    else campaign_at id w.
Proof.
  unfold campaign_at, created. cbn [_campaigns].
  apply lookup_total_insert.
Qed.

Lemma campaign_at_contributed env from amount campaignId w id :
  campaign_at id (contributed env from amount campaignId w) =
    if decide (campaignId = id)
    then set_totalRaised
           (FHE_add (totalRaised (campaign_at campaignId w)) amount)
           (campaign_at campaignId w)
    else campaign_at id w.
Proof.
  unfold campaign_at, contributed. cbn [_campaigns].
  apply lookup_total_insert.
Qed.

Lemma contribution_at_contributed env from amount campaignId w id user :
  contribution_at id user (contributed env from amount campaignId w) =
    if decide ((campaignId, from) = (id, user))
    then next_contribution (contribution_at campaignId from w) amount
    else contribution_at id user w.
Proof.
  unfold contribution_at, contributed. cbn [_contributions].
  apply lookup_total_insert.
Qed.

Lemma campaign_at_staged env campaignId w id :
  campaign_at id (staged env campaignId w) =
    if decide (campaignId = id)
    then set_totalRaised (FHE_asEuint64 0)
           (set_ended true (campaign_at campaignId w))
    else campaign_at id w.
Proof.
  unfold campaign_at, staged. cbn [_campaigns].
  apply lookup_total_insert.
Qed.

Lemma campaign_at_settled env campaignId w id :
  campaign_at id (settled confidentialTransfer env campaignId w) =
    if decide (campaignId = id)
    then set_totalRaised (FHE_asEuint64 0)
           (set_ended true (campaign_at campaignId w))
    else campaign_at id w.
Proof.
  unfold campaign_at, settled, staged.
  cbn [_campaigns with_events with_token].
  apply lookup_total_insert.
Qed.

(** ** Creation *)

(** C6: a creation with an empty name, a zero target or a deadline that is
    not strictly after the current time reverts with the reason of the
    first precondition it violates, which is a [ValidationError]; the state
    is exactly the one the call started from when it reverts, and the
    transaction commits nothing. *)
Theorem createCampaign_rejects_invalid env nm tg dl w :
  nm = EmptyString \/ tg <= 0 \/ dl <= block_timestamp env ->
  exists reason,
    createCampaign env nm tg dl w = Reverted (Error reason) w /\
    reason = (if decide (nm = EmptyString) then "Name required"
              else if decide (tg <= 0) then "Target required"
              else "Deadline must be in the future") /\
    error_kind reason = Some ValidationError /\
    (transact confidentialTransfer (env, CreateCampaign nm tg dl) w).1 = w.
Proof.
  intros Hbad.
  assert (Hrun : createCampaign env nm tg dl w =
            Reverted (Error (if decide (nm = EmptyString) then "Name required"
                             else if decide (tg <= 0) then "Target required"
                             else "Deadline must be in the future")) w).
  { rewrite createCampaign_eq.
    destruct (decide (nm = EmptyString)) as [Hn|Hn].
    - apply length_zero_empty in Hn. rewrite Hn. reflexivity.
    - destruct (0 <? Z.of_nat (String.length nm)) eqn:Hlen;
        [|apply length_zero_empty in Hlen; contradiction].
      cbn [negb].
      destruct (decide (tg <= 0)) as [Ht|Ht].
      + apply Z.ltb_ge in Ht. rewrite Ht. reflexivity.
      + apply Z.nle_gt, Z.ltb_lt in Ht. rewrite Ht. cbn [negb].
        destruct Hbad as [?|[?|Hd]]; [contradiction|apply Z.ltb_lt in Ht; lia|].
        apply Z.ltb_ge in Hd. rewrite Hd. reflexivity. }
  eexists. split; [exact Hrun|]. split; [reflexivity|]. split.
  - repeat case_decide; reflexivity.
  - unfold transact, call. cbn [fst snd]. cbv [mbind M_bind].
    rewrite Hrun. reflexivity.
Qed.

(** ** The transfer callback *)

(** C3: the callback reverts with "Unsupported token" (an
    [AuthorizationError]) when the caller is not the payment token; past
    that check, with "Campaign not found" ([NotFoundError]) when the
    record of the decoded id has the zero creator, then with "Campaign
    already ended" ([AlreadyEndedError]) when its flag is set, then with
    "Campaign expired" ([ExpiredError]) when the current time is strictly
    after its deadline.  Whatever makes the callback revert, it reverts in
    the state it was called in and the transaction commits nothing. *)
Theorem onConfidentialTransferReceived_rejects env operator from amount data w :
  let outcome :=
    onConfidentialTransferReceived env operator from amount data w in
  (msg_sender env <> paymentToken w ->
   outcome = Reverted (Error "Unsupported token") w) /\
  (forall campaignId,
     msg_sender env = paymentToken w ->
     abi_decode_uint256 data = Some campaignId ->
     let campaign := campaign_at campaignId w in
     (creator campaign = address_zero ->
      outcome = Reverted (Error "Campaign not found") w) /\
     (creator campaign <> address_zero -> ended campaign = true ->
      outcome = Reverted (Error "Campaign already ended") w) /\
     (creator campaign <> address_zero -> ended campaign = false ->
      deadline campaign < block_timestamp env ->
      outcome = Reverted (Error "Campaign expired") w)) /\
  (error_kind "Unsupported token" = Some AuthorizationError /\
   error_kind "Campaign not found" = Some NotFoundError /\
   error_kind "Campaign already ended" = Some AlreadyEndedError /\
   error_kind "Campaign expired" = Some ExpiredError) /\
  (forall e w',
     outcome = Reverted e w' ->
     w' = w /\
     (transact confidentialTransfer
        (env, OnConfidentialTransferReceived operator from amount data) w).1
       = w).
Proof.
  cbv zeta. split; [|split; [|split]].
  - intros Hs. rewrite onConfidentialTransferReceived_eq.
    rewrite bool_decide_eq_false_2 by assumption. reflexivity.
  - intros campaignId Hs Hd.
    rewrite onConfidentialTransferReceived_eq.
    rewrite bool_decide_eq_true_2 by assumption. cbn [negb].
    rewrite Hd. cbv zeta. repeat split.
    + intros Hc. rewrite bool_decide_eq_true_2 by assumption. reflexivity.
    + intros Hc He. rewrite bool_decide_eq_false_2 by assumption.
      rewrite He. reflexivity.
    + intros Hc He Hlate. rewrite bool_decide_eq_false_2 by assumption.
      rewrite He. apply Z.leb_gt in Hlate. rewrite Hlate. reflexivity.
  - repeat split; reflexivity.
  - intros e w' Hr. split.
    + eapply onConfidentialTransferReceived_reverted, Hr.
    + rewrite transact_transfer, Hr. reflexivity.
Qed.

(** C10: a callback that does not revert returns the trivial encryption of
    [true], which decrypts to [true] and which the calling token may
    decrypt; the contract has no path that returns an encrypted [false]. *)
Theorem onConfidentialTransferReceived_flag env operator from amount data w
    flag w' :
  onConfidentialTransferReceived env operator from amount data w
    = Success flag w' ->
  flag = FHE_asEbool true /\
  decrypt_bool flag = true /\
  isAllowed (HBool flag) (msg_sender env) w' = true /\
  msg_sender env = paymentToken w.
Proof using Type.
  intros H. apply onConfidentialTransferReceived_success in H
    as (Hs & campaignId & _ & _ & _ & _ & -> & ->).
  repeat split; try assumption.
  unfold isAllowed. apply bool_decide_eq_true_2. cbn [contributed acl].
  apply list_elem_of_In, in_or_app. right. cbn [In].
  do 6 right. left. reflexivity.
Qed.

(** ** Settlement *)


Lemma endCampaign_calling_eq external env campaignId w :
  endCampaign_calling external env campaignId w =
    match endCampaign_staged env campaignId w with
    | Reverted e w' => Reverted e w'
    | Success payout s =>
        match external (msg_sender env) payout s with
        | Success moved s' =>
            Success moved
              (with_events
                 (events s' ++ [CampaignEnded campaignId (msg_sender env) moved])
                 s')
        | Reverted e s' => Reverted e s'
        end
    end.
Proof.
  unfold endCampaign_calling. cbv [mbind M_bind].
  destruct (endCampaign_staged env campaignId w) as [payout s|e s];
    [|reflexivity].
  destruct (external (msg_sender env) payout s) as [moved s'|e s'];
    reflexivity.
Qed.

Lemma staged_record env campaignId w :
  campaign_at campaignId (staged env campaignId w)
    = set_totalRaised (FHE_asEuint64 0)
        (set_ended true (campaign_at campaignId w)).
Proof.
  rewrite campaign_at_staged, decide_True by reflexivity. reflexivity.
Qed.

(** C5, as the code has it.  When the checks of [endCampaign] pass, whatever
    code sits at the token's address is run on the staged state: the flag is
    already set and the total is already the encrypted zero there, and the
    amount it is asked to move is the total the campaign had before.  So a
    view called from within the transfer reads the campaign as ended, with
    a zero total, and as inactive; an [endCampaign] on the same id called
    from within the transfer comes back reverted and changes nothing, with
    "Campaign already ended" when its caller is the creator and with "Only
    creator" for any other caller; and a callback for the same id called
    from within the transfer comes back reverted and changes nothing, with
    "Campaign already ended" when its caller is the payment token and with
    "Unsupported token" otherwise.  In each case the settlement goes on
    exactly as if the callee had only been told that answer.  [endCampaign]
    itself is the case of the token's plain transfer. *)
Theorem endCampaign_stages_before_transfer env campaignId w :
  creator (campaign_at campaignId w) <> address_zero ->
  msg_sender env = creator (campaign_at campaignId w) ->
  ended (campaign_at campaignId w) = false ->
  let campaign := campaign_at campaignId w in
  (forall external,
     endCampaign_calling external env campaignId w =
       match external (msg_sender env) (totalRaised campaign)
                      (staged env campaignId w) with
       | Success moved s' =>
           Success moved
             (with_events
                (events s' ++ [CampaignEnded campaignId (msg_sender env) moved])
                s')
       | Reverted e s' => Reverted e s'
       end) /\
  (forall k,
     endCampaign_calling (looking (getCampaign campaignId) k) env campaignId w
       = endCampaign_calling
           (k (name campaign, target campaign, deadline campaign, true,
               FHE_asEuint64 0, creator campaign))
           env campaignId w) /\
  (forall env' k,
     endCampaign_calling (looking (isCampaignActive env' campaignId) k)
         env campaignId w
       = endCampaign_calling (k false) env campaignId w) /\
  (forall inner env' k,
     endCampaign_calling
         (calling_back (endCampaign_calling inner env' campaignId) k)
         env campaignId w
       = endCampaign_calling
           (k (inl (Error (if decide (msg_sender env' = creator campaign)
                           then "Campaign already ended"
                           else "Only creator"))))
           env campaignId w) /\
  (forall env' operator from amount data k,
     abi_decode_uint256 data = Some campaignId ->
     endCampaign_calling
         (calling_back
            (onConfidentialTransferReceived env' operator from amount data) k)
         env campaignId w
       = endCampaign_calling
           (k (inl (Error (if decide (msg_sender env' = paymentToken w)
                           then "Campaign already ended"
                           else "Unsupported token"))))
           env campaignId w) /\
  endCampaign confidentialTransfer env campaignId w
    = endCampaign_calling
        (paymentToken_confidentialTransfer confidentialTransfer)
        env campaignId w /\
  (error_kind "Campaign already ended" = Some AlreadyEndedError /\
   error_kind "Only creator" = Some AuthorizationError /\
   error_kind "Unsupported token" = Some AuthorizationError).
Proof.
  intros Hc Hs He. cbv zeta.
  assert (Hrun : forall external,
            endCampaign_calling external env campaignId w =
              match external (msg_sender env)
                             (totalRaised (campaign_at campaignId w))
                             (staged env campaignId w) with
              | Success moved s' =>
                  Success moved
                    (with_events
                       (events s' ++ [CampaignEnded campaignId
                                                    (msg_sender env) moved])
                       s')
              | Reverted e s' => Reverted e s'
              end).
  { intros external. rewrite endCampaign_calling_eq, endCampaign_staged_eq.
    cbv zeta. rewrite bool_decide_eq_false_2 by assumption.
    rewrite bool_decide_eq_true_2 by assumption. rewrite He. reflexivity. }
  pose proof (staged_record env campaignId w) as Hrec.
  split; [exact Hrun|].
  split; [|split; [|split; [|split; [|split; [reflexivity|repeat split]]]]].
  - intros k. rewrite !Hrun. unfold looking, getCampaign.
    cbv [mbind M_bind gets]. cbv zeta. rewrite Hrec.
    cbn [name target deadline ended totalRaised creator set_totalRaised
         set_ended]. reflexivity.
  - intros env' k. rewrite !Hrun. unfold looking, isCampaignActive.
    cbv [mbind M_bind gets]. cbv zeta. rewrite Hrec.
    cbn [ended set_totalRaised set_ended negb]. rewrite andb_false_r.
    reflexivity.
  - intros inner env' k. rewrite !Hrun. unfold calling_back, attempt.
    cbv [mbind M_bind].
    rewrite (endCampaign_calling_eq inner env' campaignId),
      endCampaign_staged_eq.
    cbv zeta. rewrite Hrec. cbn [creator ended set_totalRaised set_ended].
    rewrite bool_decide_eq_false_2 by assumption.
    destruct (decide (msg_sender env' = creator (campaign_at campaignId w))).
    + rewrite bool_decide_eq_true_2 by assumption. reflexivity.
    + rewrite bool_decide_eq_false_2 by assumption. reflexivity.
  - intros env' operator from amount data k Hd. rewrite !Hrun.
    unfold calling_back, attempt. cbv [mbind M_bind].
    rewrite onConfidentialTransferReceived_eq.
    change (paymentToken (staged env campaignId w)) with (paymentToken w).
    destruct (decide (msg_sender env' = paymentToken w)).
    + rewrite bool_decide_eq_true_2 by assumption. cbn [negb].
      rewrite Hd. cbv zeta. rewrite Hrec.
      cbn [creator ended set_totalRaised set_ended].
      rewrite bool_decide_eq_false_2 by assumption. reflexivity.
    + rewrite bool_decide_eq_false_2 by assumption. reflexivity.
Qed.

(** ** Contribution entries *)

Lemma decrypt_range h : 0 <= decrypt h < uint64_modulus.
Proof.
  assert (Hpos : 0 < uint64_modulus) by reflexivity.
  destruct h; cbn [decrypt]; try (apply Z.mod_pos_bound, Hpos).
  split; [reflexivity|exact Hpos].
Qed.

(** ** The lifecycle of a campaign *)

Lemma decrypt_next_contribution stored amount :
  decrypt (next_contribution stored amount)
    = (decrypt stored + decrypt amount) mod uint64_modulus.
Proof. destruct stored; reflexivity. Qed.

(** C9, as the code has it: a successful settlement writes the flag and the
    total of its own campaign record and nothing else in storage: the table
    of contribution entries, the counter, the other four fields of the
    record and every other record are as before.  No transaction of any
    kind writes an entry except an accepted contribution of that
    contributor to that campaign, which replaces it by the homomorphic sum
    of the entry (the encrypted zero when the entry was uninitialised) and
    the amount; the new entry decrypts to the sum modulo 2^64, so it is
    not below the old one unless that sum reaches 2^64. *)
Theorem contribution_entries_persist :
  (forall env campaignId w payout w',
     endCampaign confidentialTransfer env campaignId w = Success payout w' ->
     _contributions w' = _contributions w /\
     campaignCount w' = campaignCount w /\
     _campaigns w' =
       <[campaignId := set_totalRaised (FHE_asEuint64 0)
                         (set_ended true (campaign_at campaignId w))]>
         (_campaigns w) /\
     name (campaign_at campaignId w') = name (campaign_at campaignId w) /\
     target (campaign_at campaignId w') = target (campaign_at campaignId w) /\
     deadline (campaign_at campaignId w')
       = deadline (campaign_at campaignId w) /\
     creator (campaign_at campaignId w') = creator (campaign_at campaignId w) /\
     (forall id, id <> campaignId -> campaign_at id w' = campaign_at id w) /\
     (forall id user, contributionOf id user w' = contributionOf id user w)) /\
  (forall tx w id user,
     let w' := (transact confidentialTransfer tx w).1 in
     contributionOf id user w' = contributionOf id user w \/
     exists operator amount data,
       tx.2 = OnConfidentialTransferReceived operator user amount data /\
       abi_decode_uint256 data = Some id /\
       contributionOf id user w' =
         FHE_add (if negb (FHE_isInitialized (contributionOf id user w))
                  then FHE_asEuint64 0 else contributionOf id user w) amount /\
       decrypt (contributionOf id user w') =
         (decrypt (contributionOf id user w) + decrypt amount)
           mod uint64_modulus /\
       (decrypt (contributionOf id user w) + decrypt amount < uint64_modulus ->
        decrypt (contributionOf id user w)
          <= decrypt (contributionOf id user w'))).
Proof.
  split.
  - intros env campaignId w payout w' H.
    apply endCampaign_success in H as (_ & _ & _ & _ & ->).
    rewrite !campaign_at_settled, !decide_True by reflexivity.
    cbn [name target deadline creator set_totalRaised set_ended].
    repeat split.
    + intros id Hid. rewrite campaign_at_settled, decide_False by congruence.
      reflexivity.
  - intros [env [nm tg dl|operator from amount data|campaignId]] w id user;
      cbv zeta.
    + left. rewrite transact_create.
      destruct (createCampaign env nm tg dl w) as [id' w'|e w'] eqn:H;
        [|reflexivity].
      apply createCampaign_success in H as (_ & _ & _ & _ & _ & ->).
      reflexivity.
    + rewrite transact_transfer.
      destruct (onConfidentialTransferReceived env operator from amount data w)
        as [flag w'|e w'] eqn:H; [|left; reflexivity].
      apply onConfidentialTransferReceived_success in H
        as (_ & campaignId & Hd & _ & _ & _ & _ & ->).
      cbn [fst]. unfold contributionOf.
      rewrite contribution_at_contributed.
      destruct (decide ((campaignId, from) = (id, user))) as [[= -> ->]|Hne];
        [right|left; reflexivity].
      exists operator, amount, data.
      pose proof (decrypt_range (contribution_at id user w)).
      pose proof (decrypt_range amount).
      split; [reflexivity|]. split; [assumption|]. split; [reflexivity|].
      rewrite decrypt_next_contribution. split; [reflexivity|].
      intros Hsmall. rewrite Z.mod_small by lia. lia.
    + left. rewrite transact_end.
      destruct (endCampaign confidentialTransfer env campaignId w)
        as [payout w'|e w'] eqn:H; [|reflexivity].
      apply endCampaign_success in H as (_ & _ & _ & _ & ->).
      reflexivity.
Qed.

(** ** Traces *)

(** A transaction is a revert that commits nothing, or one of the three
    committed state changes. *)
Lemma transact_cases tx w :
  (exists e, transact confidentialTransfer tx w = (w, inl e)) \/
  (exists env nm tg dl,
     tx = (env, CreateCampaign nm tg dl) /\
     campaignCount w + 1 <= uint256_max /\
     transact confidentialTransfer tx w =
       (created env nm tg dl w, inr (ReturnedId (campaignCount w + 1)))) \/
  (exists env operator from amount data campaignId,
     tx = (env, OnConfidentialTransferReceived operator from amount data) /\
     abi_decode_uint256 data = Some campaignId /\
     creator (campaign_at campaignId w) <> address_zero /\
     ended (campaign_at campaignId w) = false /\
     transact confidentialTransfer tx w =
       (contributed env from amount campaignId w,
        inr (ReturnedFlag (FHE_asEbool true)))) \/
  (exists env campaignId,
     tx = (env, EndCampaign campaignId) /\
     creator (campaign_at campaignId w) <> address_zero /\
     ended (campaign_at campaignId w) = false /\
     transact confidentialTransfer tx w =
       (settled confidentialTransfer env campaignId w,
        inr (ReturnedPayout
               (confidentialTransfer (this w) (msg_sender env)
                  (totalRaised (campaign_at campaignId w)) (token w)).1))).
Proof.
  destruct tx as [env [nm tg dl|operator from amount data|campaignId]].
  - rewrite transact_create.
    destruct (createCampaign env nm tg dl w) as [id w'|e w'] eqn:H;
      [|left; eauto].
    apply createCampaign_success in H as (_ & _ & _ & Hc & -> & ->).
    right; left. exists env, nm, tg, dl. auto.
  - rewrite transact_transfer.
    destruct (onConfidentialTransferReceived env operator from amount data w)
      as [flag w'|e w'] eqn:H; [|left; eauto].
    apply onConfidentialTransferReceived_success in H
      as (_ & campaignId & Hd & Hc & He & _ & -> & ->).
    right; right; left. exists env, operator, from, amount, data, campaignId.
    auto.
  - rewrite transact_end.
    destruct (endCampaign confidentialTransfer env campaignId w)
      as [payout w'|e w'] eqn:H; [|left; eauto].
    apply endCampaign_success in H as (Hc & _ & He & -> & ->).
    right; right; right. exists env, campaignId. auto.
Qed.

Lemma run_app txs1 txs2 w :
  run confidentialTransfer (txs1 ++ txs2) w
    = run confidentialTransfer txs2 (run confidentialTransfer txs1 w).
Proof.
  revert w. induction txs1 as [|tx txs1 IH]; intros w; [reflexivity|].
  cbn [app run]. apply IH.
Qed.

Lemma created_ids_app txs1 txs2 w :
  created_ids confidentialTransfer (txs1 ++ txs2) w =
    (created_ids confidentialTransfer txs1 w ++
     created_ids confidentialTransfer txs2
       (run confidentialTransfer txs1 w))%list.
Proof.
  revert w. induction txs1 as [|tx txs1 IH]; intros w; [reflexivity|].
  cbn [app run created_ids]. rewrite IH, app_assoc. reflexivity.
Qed.

Lemma absent_campaign w id :
  _campaigns w !! id = None -> campaign_at id w = inhabitant.
Proof.
  intros H. unfold campaign_at. rewrite lookup_total_alt, H. reflexivity.
Qed.

Lemma existing_campaign_counted w id :
  wf w -> creator (campaign_at id w) <> address_zero -> id <= campaignCount w.
Proof.
  intros [_ Hwf] Hc. destruct (decide (id <= campaignCount w)) as [|Hgt];
    [assumption|].
  rewrite (absent_campaign w id) in Hc by (apply Hwf; lia).
  contradiction Hc. reflexivity.
Qed.

Lemma wf_constructor self tokenAddress (l : Ledger) :
  wf (constructor self tokenAddress l).
Proof.
  split; [cbn; lia|]. intros id _. cbn. apply lookup_empty.
Qed.

Lemma wf_transact tx w : wf w -> wf (transact confidentialTransfer tx w).1.
Proof.
  intros Hwf.
  destruct (transact_cases tx w)
    as [[e ->]|[(env & nm & tg & dl & _ & _ & ->)
       |[(env & operator & from & amount & data & id & _ & _ & Hc & _ & ->)
        |(env & id & _ & Hc & _ & ->)]]]; cbn [fst]; [assumption|..].
  - destruct Hwf as [H0 Hwf]. split; cbn [created campaignCount _campaigns];
      [lia|].
    intros id Hid. rewrite lookup_insert_ne by lia. apply Hwf. lia.
  - pose proof (existing_campaign_counted w id Hwf Hc).
    destruct Hwf as [H0 Hwf].
    split; cbn [contributed campaignCount _campaigns]; [assumption|].
    intros id' Hid. rewrite lookup_insert_ne by lia. apply Hwf, Hid.
  - pose proof (existing_campaign_counted w id Hwf Hc).
    destruct Hwf as [H0 Hwf].
    split; cbn [settled staged campaignCount _campaigns with_events with_token];
      [assumption|].
    intros id' Hid. rewrite lookup_insert_ne by lia. apply Hwf, Hid.
Qed.

Lemma wf_run txs w : wf w -> wf (run confidentialTransfer txs w).
Proof.
  revert w. induction txs as [|tx txs IH]; intros w Hwf; [assumption|].
  cbn [run]. apply IH, wf_transact, Hwf.
Qed.

Lemma created_ids_counted txs w :
  campaignCount (run confidentialTransfer txs w) =
    campaignCount w
    + Z.of_nat (length (created_ids confidentialTransfer txs w)) /\
  (forall id, In id (created_ids confidentialTransfer txs w) ->
     campaignCount w < id <= campaignCount (run confidentialTransfer txs w)).
Proof.
  revert w. induction txs as [|tx txs IH]; intros w.
  { cbn. split; [lia|tauto]. }
  cbn [run created_ids]. destruct (IH (transact confidentialTransfer tx w).1)
    as [IHc IHi].
  destruct (transact_cases tx w)
    as [[e Ht]|[(env & nm & tg & dl & _ & _ & Ht)
       |[(env & operator & from & amount & data & id & _ & _ & _ & _ & Ht)
        |(env & id & _ & _ & _ & Ht)]]];
    rewrite Ht in *; cbn [fst snd app length] in *.
  - auto.
  - cbn [created campaignCount] in *. split; [lia|].
    intros id [<-|Hin]; [lia|]. specialize (IHi id Hin). lia.
  - auto.
  - auto.
Qed.

(** C7: in any trace that starts at deployment, a successful creation
    returns the number of campaigns created so far plus one, hence 1 for
    the first and never 0; the id is greater than every id returned before,
    and its slot had never been written. *)
Theorem campaign_ids_increase self tokenAddress (l : Ledger) pre env nm tg dl
    id w' :
  let start := constructor self tokenAddress l in
  let w := run confidentialTransfer pre start in
  let earlier := created_ids confidentialTransfer pre start in
  createCampaign env nm tg dl w = Success id w' ->
  id = Z.of_nat (length earlier) + 1 /\
  1 <= id /\
  (forall id', In id' earlier -> 1 <= id' < id) /\
  _campaigns w !! id = None /\
  created_ids confidentialTransfer
    (pre ++ [(env, CreateCampaign nm tg dl)]) start = (earlier ++ [id])%list.
Proof.
  cbv zeta. intros H.
  pose proof (wf_run pre _ (wf_constructor self tokenAddress l)) as [_ Hwf].
  destruct (created_ids_counted pre (constructor self tokenAddress l))
    as [Hcount Hin].
  cbn [constructor campaignCount] in Hcount, Hin.
  rewrite created_ids_app. cbn [created_ids]. rewrite transact_create, H.
  cbn [snd app].
  apply createCampaign_success in H as (_ & _ & _ & _ & -> & _).
  split; [lia|]. split; [lia|]. split; [|split; [apply Hwf; lia|reflexivity]].
  intros id' Hid. specialize (Hin id' Hid). lia.
Qed.

Lemma step_lifecycle tx w campaignId :
  wf w ->
  let w' := (transact confidentialTransfer tx w).1 in
  let campaign := campaign_at campaignId w in
  let campaign' := campaign_at campaignId w' in
  (ended campaign = true ->
   ended campaign' = true /\ totalRaised campaign' = totalRaised campaign) /\
  (settles confidentialTransfer campaignId tx w = true <->
   ended campaign = false /\ ended campaign' = true) /\
  (settles confidentialTransfer campaignId tx w = true ->
   totalRaised campaign' = FHE_asEuint64 0) /\
  (settles confidentialTransfer campaignId tx w = false ->
   totalRaised campaign' = totalRaised campaign \/
   (exists operator from amount data,
      tx.2 = OnConfidentialTransferReceived operator from amount data /\
      abi_decode_uint256 data = Some campaignId /\
      (transact confidentialTransfer tx w).2
        = inr (ReturnedFlag (FHE_asEbool true)) /\
      totalRaised campaign' = FHE_add (totalRaised campaign) amount) \/
   (exists nm tg dl,
      tx.2 = CreateCampaign nm tg dl /\
      (transact confidentialTransfer tx w).2 = inr (ReturnedId campaignId) /\
      _campaigns w !! campaignId = None /\
      totalRaised campaign' = FHE_asEuint64 0)).
Proof.
  intros Hwf. cbv zeta. unfold settles.
  destruct (transact_cases tx w)
    as [[e Ht]|[(env & nm & tg & dl & -> & _ & Ht)
       |[(env & operator & from & amount & data & id & -> & Hd & Hc & He & Ht)
        |(env & id & -> & Hc & He & Ht)]]];
    rewrite Ht; cbn [fst snd].
  - (* a revert commits nothing *)
    assert (Hno : match tx.2 with
                  | EndCampaign _ => false
                  | _ => false
                  end = false) by (destruct tx.2; reflexivity).
    rewrite Hno. split; [auto|]. split; [|split; [discriminate|auto]].
    split; [discriminate|]. intros [H1 H2]. congruence.
  - (* a creation writes the slot above the counter *)
    rewrite campaign_at_created.
    destruct (decide (campaignCount w + 1 = campaignId)) as [<-|Hne].
    + assert (Habsent : _campaigns w !! (campaignCount w + 1) = None)
        by (apply Hwf; lia).
      rewrite (absent_campaign _ _ Habsent).
      cbn [ended totalRaised inhabitant Campaign_inhabited].
      split; [discriminate|]. split; [|split; [discriminate|]].
      * split; [discriminate|]. intros [_ ?]; discriminate.
      * intros _. right; right. exists nm, tg, dl. auto.
    + split; [auto|]. split; [|split; [discriminate|auto]].
      split; [discriminate|]. intros [H1 H2]. congruence.
  - (* an accepted contribution writes the total of its campaign *)
    rewrite campaign_at_contributed.
    destruct (decide (id = campaignId)) as [->|Hne].
    + cbn [ended totalRaised set_totalRaised]. rewrite He.
      split; [discriminate|]. split; [|split; [discriminate|]].
      * split; [discriminate|]. intros [_ ?]; discriminate.
      * intros _. right; left. exists operator, from, amount, data. auto.
    + split; [auto|]. split; [|split; [discriminate|auto]].
      split; [discriminate|]. intros [H1 H2]. congruence.
  - (* a settlement writes the flag and the total of its campaign *)
    rewrite campaign_at_settled.
    destruct (decide (id = campaignId)) as [->|Hne].
    + cbn [ended totalRaised set_totalRaised set_ended]. rewrite He.
      rewrite bool_decide_eq_true_2 by reflexivity.
      split; [discriminate|]. split; [|split; [auto|discriminate]].
      split; auto.
    + rewrite bool_decide_eq_false_2 by assumption.
      split; [auto|]. split; [|split; [discriminate|auto]].
      split; [discriminate|]. intros [H1 H2]. congruence.
Qed.

Lemma settlements_once txs w campaignId :
  wf w ->
  let final := campaign_at campaignId (run confidentialTransfer txs w) in
  let n := settlements confidentialTransfer campaignId txs w in
  (ended (campaign_at campaignId w) = true ->
   n = 0%nat /\ ended final = true /\
   totalRaised final = totalRaised (campaign_at campaignId w)) /\
  (ended (campaign_at campaignId w) = false ->
   (n <= 1)%nat /\ (n = 1%nat <-> ended final = true)).
Proof.
  revert w. induction txs as [|tx txs IH]; intros w Hwf; cbv zeta.
  { cbn [run settlements]. split; [auto|]. intros He. split; [lia|].
    rewrite He. split; discriminate. }
  cbn [run settlements].
  destruct (IH _ (wf_transact tx w Hwf)) as [IHt IHf].
  destruct (step_lifecycle tx w campaignId Hwf) as (Hkeep & Hiff & _ & _).
  split.
  - intros He. destruct (Hkeep He) as [He' Ht'].
    destruct (IHt He') as (-> & Hfin & Htot).
    assert (settles confidentialTransfer campaignId tx w = false) as ->.
    { destruct (settles _ _ tx w); [|reflexivity].
      destruct (proj1 Hiff eq_refl). congruence. }
    split; [reflexivity|]. split; [assumption|congruence].
  - intros He.
    destruct (settles confidentialTransfer campaignId tx w) eqn:Hs.
    + destruct (proj1 Hiff eq_refl) as [_ He'].
      destruct (IHt He') as (-> & Hfin & _).
      split; [lia|]. split; auto.
    + destruct (ended (campaign_at campaignId
                         (transact confidentialTransfer tx w).1)) eqn:He'.
      { assert (false = true) by (apply Hiff; auto). discriminate. }
      destruct (IHf eq_refl) as [Hle Hone]. cbn [Nat.add]. tauto.
Qed.

(** C4, as the code has it: along any trace that starts at deployment, a
    campaign whose flag is set keeps it set and keeps its total through
    every later transaction; the flag goes from unset to set exactly in the
    successful [endCampaign] calls on that campaign, each of which leaves
    the encrypted zero as the total; a trace contains at most one such
    call, and contains one exactly when it ends with the flag set.  Every
    other transaction leaves the total as it was, or is the creation that
    first writes the record, or replaces the total by its homomorphic sum
    with an accepted amount, which decrypts to the sum modulo 2^64 and so
    does not lower the decrypted total unless that sum reaches 2^64. *)
Theorem campaign_lifecycle self tokenAddress (l : Ledger) campaignId :
  let start := constructor self tokenAddress l in
  (forall pre tx,
     let w := run confidentialTransfer pre start in
     let w' := (transact confidentialTransfer tx w).1 in
     let campaign := campaign_at campaignId w in
     let campaign' := campaign_at campaignId w' in
     (ended campaign = true ->
      ended campaign' = true /\ totalRaised campaign' = totalRaised campaign) /\
     (settles confidentialTransfer campaignId tx w = true <->
      ended campaign = false /\ ended campaign' = true) /\
     (settles confidentialTransfer campaignId tx w = true ->
      totalRaised campaign' = FHE_asEuint64 0) /\
     (settles confidentialTransfer campaignId tx w = false ->
      totalRaised campaign' = totalRaised campaign \/
      (exists operator from amount data,
         tx.2 = OnConfidentialTransferReceived operator from amount data /\
         abi_decode_uint256 data = Some campaignId /\
         (transact confidentialTransfer tx w).2
           = inr (ReturnedFlag (FHE_asEbool true)) /\
         totalRaised campaign' = FHE_add (totalRaised campaign) amount /\
         decrypt (totalRaised campaign')
           = (decrypt (totalRaised campaign) + decrypt amount)
               mod uint64_modulus /\
         (decrypt (totalRaised campaign) + decrypt amount < uint64_modulus ->
          decrypt (totalRaised campaign) <= decrypt (totalRaised campaign'))) \/
      (exists nm tg dl,
         tx.2 = CreateCampaign nm tg dl /\
         (transact confidentialTransfer tx w).2 = inr (ReturnedId campaignId) /\
         _campaigns w !! campaignId = None /\
         totalRaised campaign' = FHE_asEuint64 0))) /\
  (forall pre post,
     let w := run confidentialTransfer pre start in
     let later := run confidentialTransfer (pre ++ post) start in
     ended (campaign_at campaignId w) = true ->
     ended (campaign_at campaignId later) = true /\
     totalRaised (campaign_at campaignId later)
       = totalRaised (campaign_at campaignId w)) /\
  (forall txs,
     let n := settlements confidentialTransfer campaignId txs start in
     (n <= 1)%nat /\
     (n = 1%nat <->
      ended (campaign_at campaignId (run confidentialTransfer txs start))
        = true)).
Proof.
  cbv zeta. split; [|split].
  - intros pre tx.
    destruct (step_lifecycle tx (run confidentialTransfer pre
                                   (constructor self tokenAddress l))
                campaignId (wf_run pre _ (wf_constructor self tokenAddress l)))
      as (Hkeep & Hiff & Hzero & Hother).
    split; [exact Hkeep|]. split; [exact Hiff|]. split; [exact Hzero|].
    intros Hs.
    destruct (Hother Hs)
      as [Hsame|[(operator & from & amount & data & Htx & Hd & Hr & Hadd)
                |Hcreate]]; [left; exact Hsame| |right; right; exact Hcreate].
    right; left. exists operator, from, amount, data.
    rewrite Hadd. cbn [FHE_add decrypt].
    pose proof (decrypt_range (totalRaised
      (campaign_at campaignId
         (run confidentialTransfer pre (constructor self tokenAddress l))))).
    pose proof (decrypt_range amount).
    repeat split; try assumption.
    intros Hsmall. rewrite Z.mod_small by lia. lia.
  - intros pre post He. rewrite run_app.
    apply (settlements_once post _ campaignId
             (wf_run pre _ (wf_constructor self tokenAddress l))), He.
  - intros txs.
    apply (settlements_once txs _ campaignId
             (wf_constructor self tokenAddress l)).
    reflexivity.
Qed.

(** ** Accounting *)

Lemma sum_amounts_app l1 l2 :
  sum_amounts (l1 ++ l2) = sum_amounts l1 + sum_amounts l2.
Proof.
  unfold sum_amounts. induction l1 as [|h l1 IH]; cbn [app foldr]; lia.
Qed.

Lemma sum_amounts_nonneg l : 0 <= sum_amounts l.
Proof.
  unfold sum_amounts. induction l as [|h l IH]; cbn [foldr]; [lia|].
  pose proof (decrypt_range h). lia.
Qed.

Lemma amounts_to_app id (l1 l2 : list (Z * address * euint64)) :
  amounts_to id (l1 ++ l2) = (amounts_to id l1 ++ amounts_to id l2)%list.
Proof. unfold amounts_to. rewrite filter_app, map_app. reflexivity. Qed.

Lemma amounts_of_app id user (l1 l2 : list (Z * address * euint64)) :
  amounts_of id user (l1 ++ l2)
    = (amounts_of id user l1 ++ amounts_of id user l2)%list.
Proof. unfold amounts_of. rewrite filter_app, map_app. reflexivity. Qed.

Lemma amounts_to_single id id0 from amount :
  amounts_to id [(id0, from, amount)]
    = if decide (id0 = id) then [amount] else [].
Proof.
  unfold amounts_to. rewrite filter_cons, filter_nil. cbn [fst].
  destruct (decide (id0 = id)); reflexivity.
Qed.

Lemma amounts_of_single id user id0 from amount :
  amounts_of id user [(id0, from, amount)]
    = if decide ((id0, from) = (id, user)) then [amount] else [].
Proof.
  unfold amounts_of. rewrite filter_cons, filter_nil. cbn [fst].
  destruct (decide ((id0, from) = (id, user))); reflexivity.
Qed.

Lemma accepted_by_cases tx w :
  accepted_by confidentialTransfer tx w =
    match tx.2, (transact confidentialTransfer tx w).2 with
    | OnConfidentialTransferReceived _ from amount data, inr _ =>
        match abi_decode_uint256 data with
        | Some id => [(id, from, amount)]
        | None => []
        end
    | _, _ => []
    end.
Proof. reflexivity. Qed.

Lemma accounted_transact tx w log :
  wf w -> accounted w log ->
  accounted (transact confidentialTransfer tx w).1
            (log ++ accepted_by confidentialTransfer tx w).
Proof.
  intros Hwf (Habove & Htotal & Hentry). rewrite accepted_by_cases.
  destruct (transact_cases tx w)
    as [[e Ht]|[(env & nm & tg & dl & -> & _ & Ht)
       |[(env & operator & from & amount & data & id0 & -> & Hd & Hc & He & Ht)
        |(env & id0 & -> & Hc & He & Ht)]]];
    rewrite Ht; cbn [fst snd].
  - (* a revert commits nothing and accepts nothing *)
    assert (match tx.2 with
            | OnConfidentialTransferReceived _ _ _ _ => []
            | _ => []
            end = ([] : list (Z * address * euint64))) as ->
      by (destruct tx.2; reflexivity).
    rewrite app_nil_r. repeat split; assumption.
  - (* a creation starts a total at the encrypted zero *)
    rewrite app_nil_r. split; [|split].
    + intros id Hid. cbn [created campaignCount] in Hid. apply Habove. lia.
    + intros id. rewrite campaign_at_created.
      destruct (decide (campaignCount w + 1 = id)) as [<-|Hne]; [|apply Htotal].
      intros _. cbn [totalRaised]. rewrite Habove by lia. reflexivity.
    + intros id user. apply Hentry.
  - (* an accepted contribution adds its amount to both accounts *)
    rewrite Hd.
    pose proof (existing_campaign_counted w id0 Hwf Hc) as Hle.
    split; [|split].
    + intros id Hid. cbn [contributed campaignCount] in Hid.
      rewrite amounts_to_app, amounts_to_single, decide_False by lia.
      rewrite Habove by assumption. reflexivity.
    + intros id. rewrite campaign_at_contributed.
      rewrite amounts_to_app, amounts_to_single, sum_amounts_app.
      destruct (decide (id0 = id)) as [<-|Hne].
      * cbn [ended totalRaised set_totalRaised]. intros _.
        cbn [FHE_add decrypt sum_amounts foldr].
        rewrite (Htotal id0 He), Z.add_0_r.
        apply Z.add_mod_idemp_l. discriminate.
      * intros Hopen. cbn [sum_amounts foldr]. rewrite Z.add_0_r.
        apply Htotal, Hopen.
    + intros id user. rewrite contribution_at_contributed.
      rewrite amounts_of_app, amounts_of_single, sum_amounts_app.
      destruct (decide ((id0, from) = (id, user))) as [[= <- <-]|Hne].
      * rewrite decrypt_next_contribution, Hentry.
        cbn [sum_amounts foldr]. rewrite Z.add_0_r.
        apply Z.add_mod_idemp_l. discriminate.
      * cbn [sum_amounts foldr]. rewrite Z.add_0_r. apply Hentry.
  - (* a settlement closes the account of its campaign *)
    rewrite app_nil_r. split; [|split].
    + intros id Hid. apply Habove. exact Hid.
    + intros id. rewrite campaign_at_settled.
      destruct (decide (id0 = id)) as [<-|Hne]; [|apply Htotal].
      cbn [ended set_totalRaised set_ended]. discriminate.
    + intros id user. apply Hentry.
Qed.

Lemma accounted_run txs w log :
  wf w -> accounted w log ->
  accounted (run confidentialTransfer txs w)
            (log ++ accepted confidentialTransfer txs w).
Proof.
  revert w log. induction txs as [|tx txs IH]; intros w log Hwf Hacc.
  { cbn [run accepted]. rewrite app_nil_r. assumption. }
  cbn [run accepted]. rewrite app_assoc.
  apply IH; [apply wf_transact, Hwf|apply accounted_transact; assumption].
Qed.

Lemma accounted_constructor self tokenAddress (l : Ledger) :
  accounted (constructor self tokenAddress l) [].
Proof.
  split; [|split]; intros; reflexivity.
Qed.

(** C1, as the code has it: after any trace that starts at deployment, the
    total of a campaign that is not ended decrypts to the sum of the
    amounts accepted for it, and each contributor's entry to the sum of the
    contributor's own accepted amounts, both reduced modulo 2^64, the
    range of the ciphertexts; they are the exact sums whenever those stay
    below 2^64.  A callback is accepted only for a campaign that exists,
    is not ended and whose deadline has not passed, and it replaces the
    total and the entry by their homomorphic sums with the amount, an
    uninitialised entry counting as the encrypted zero. *)
Theorem totals_accumulate_modulo self tokenAddress (l : Ledger) txs
    campaignId contributor :
  let start := constructor self tokenAddress l in
  let w := run confidentialTransfer txs start in
  let log := accepted confidentialTransfer txs start in
  let total := totalRaised (campaign_at campaignId w) in
  let entry := contributionOf campaignId contributor w in
  (ended (campaign_at campaignId w) = false ->
   decrypt total = sum_amounts (amounts_to campaignId log) mod uint64_modulus /\
   (sum_amounts (amounts_to campaignId log) < uint64_modulus ->
    decrypt total = sum_amounts (amounts_to campaignId log))) /\
  decrypt entry
    = sum_amounts (amounts_of campaignId contributor log) mod uint64_modulus /\
  (sum_amounts (amounts_of campaignId contributor log) < uint64_modulus ->
   decrypt entry = sum_amounts (amounts_of campaignId contributor log)) /\
  (forall env operator from amount data flag w',
     onConfidentialTransferReceived env operator from amount data w
       = Success flag w' ->
     exists id,
       abi_decode_uint256 data = Some id /\
       creator (campaign_at id w) <> address_zero /\
       ended (campaign_at id w) = false /\
       block_timestamp env <= deadline (campaign_at id w) /\
       totalRaised (campaign_at id w')
         = FHE_add (totalRaised (campaign_at id w)) amount /\
       contributionOf id from w'
         = FHE_add (if negb (FHE_isInitialized (contributionOf id from w))
                    then FHE_asEuint64 0 else contributionOf id from w)
                   amount).
Proof.
  cbv zeta.
  destruct (accounted_run txs _ []
              (wf_constructor self tokenAddress l)
              (accounted_constructor self tokenAddress l))
    as (_ & Htotal & Hentry).
  cbn [app] in Htotal, Hentry.
  split; [|split; [|split]].
  - intros Hopen. split; [apply Htotal, Hopen|].
    intros Hsmall. rewrite (Htotal _ Hopen).
    apply Z.mod_small. split; [apply sum_amounts_nonneg|exact Hsmall].
  - apply Hentry.
  - intros Hsmall. unfold contributionOf. rewrite Hentry.
    apply Z.mod_small. split; [apply sum_amounts_nonneg|exact Hsmall].
  - intros env operator from amount data flag w' H.
    apply onConfidentialTransferReceived_success in H
      as (_ & id & Hd & Hc & He & Hdl & _ & ->).
    exists id. unfold contributionOf.
    rewrite campaign_at_contributed, contribution_at_contributed.
    rewrite !decide_True by reflexivity.
    repeat split; assumption.
Qed.

(** ** Decrypt permissions *)

Lemma isAllowed_grows h who w w' l :
  acl w' = (acl w ++ l)%list ->
  isAllowed h who w = true -> isAllowed h who w' = true.
Proof.
  unfold isAllowed. intros -> H. apply bool_decide_eq_true in H.
  apply bool_decide_eq_true_2, elem_of_app. left. exact H.
Qed.

Lemma isAllowed_new h who w l :
  In (h, who) l -> acl w = l -> isAllowed h who w = true.
Proof.
  unfold isAllowed. intros H ->.
  apply bool_decide_eq_true_2, list_elem_of_In, H.
Qed.

Lemma transact_acl tx w :
  exists l, acl (transact confidentialTransfer tx w).1 = (acl w ++ l)%list.
Proof.
  destruct tx as [env [nm tg dl|operator from amount data|campaignId]].
  - rewrite transact_create.
    destruct (createCampaign env nm tg dl w) as [id w'|e w'] eqn:H.
    + apply createCampaign_success in H as (_ & _ & _ & _ & _ & ->).
      cbn [fst created acl]. eauto.
    + exists []. cbn [fst]. rewrite app_nil_r. reflexivity.
  - rewrite transact_transfer.
    destruct (onConfidentialTransferReceived env operator from amount data w)
      as [flag w'|e w'] eqn:H.
    + apply onConfidentialTransferReceived_success in H
        as (_ & campaignId & _ & _ & _ & _ & _ & ->).
      cbn [fst contributed acl]. eauto.
    + exists []. cbn [fst]. rewrite app_nil_r. reflexivity.
  - rewrite transact_end.
    destruct (endCampaign confidentialTransfer env campaignId w)
      as [payout w'|e w'] eqn:H.
    + apply endCampaign_success in H as (_ & _ & _ & _ & ->).
      cbn [fst settled staged acl with_events with_token]. eauto.
    + exists []. cbn [fst]. rewrite app_nil_r. reflexivity.
Qed.

Lemma existing_campaign_stored w id :
  creator (campaign_at id w) <> address_zero ->
  _campaigns w !! id = Some (campaign_at id w).
Proof.
  intros Hc. unfold campaign_at in *. rewrite lookup_total_alt in *.
  destruct (_campaigns w !! id); [reflexivity|].
  contradiction Hc. reflexivity.
Qed.

Lemma granted_constructor self tokenAddress (l : Ledger) :
  granted (constructor self tokenAddress l).
Proof.
  split; cbn [constructor _campaigns _contributions]; intros *;
    rewrite lookup_empty; discriminate.
Qed.

Lemma granted_transact tx w :
  granted w -> granted (transact confidentialTransfer tx w).1.
Proof.
  intros [Hrecords Hentries].
  destruct (transact_cases tx w)
    as [[e ->]|[(env & nm & tg & dl & _ & _ & ->)
       |[(env & operator & from & amount & data & id0 & _ & _ & Hc & _ & ->)
        |(env & id0 & _ & Hc & _ & ->)]]]; cbn [fst]; [split; assumption|..].
  - (* creation: the four grants of the new record *)
    assert (Hold : forall h who,
              isAllowed h who w = true ->
              isAllowed h who (created env nm tg dl w) = true)
      by (intros h who Hw; eapply isAllowed_grows; [|exact Hw];
          reflexivity).
    split; cbn [created _campaigns _contributions this].
    + intros id campaign. rewrite lookup_insert.
      destruct (decide (campaignCount w + 1 = id)) as [_|_].
      * intros [= <-]. cbn [target totalRaised creator].
        repeat split; (eapply isAllowed_new; [|reflexivity]);
          apply in_or_app; right; cbn [In]; auto 6.
      * intros Hl. destruct (Hrecords _ _ Hl) as (?&?&?&?&?&?).
        repeat split; apply Hold; assumption.
    + intros id user entry Hl. destruct (Hentries _ _ _ Hl).
      split; apply Hold; assumption.
  - (* contribution: the grants on the new total and the new entry *)
    assert (Hold : forall h who,
              isAllowed h who w = true ->
              isAllowed h who (contributed env from amount id0 w) = true)
      by (intros h who Hw; eapply isAllowed_grows; [|exact Hw];
          reflexivity).
    pose proof (existing_campaign_stored w id0 Hc) as Hstored.
    destruct (Hrecords _ _ Hstored) as (Ht1 & Ht2 & _ & _ & Hz1 & Hz2).
    split; cbn [contributed _campaigns _contributions this].
    + intros id campaign. rewrite lookup_insert.
      destruct (decide (id0 = id)) as [_|_].
      * intros [= <-]. cbn [target totalRaised creator set_totalRaised].
        split; [apply Hold, Ht1|]. split; [apply Hold, Ht2|].
        split; [|split; [|split; apply Hold; assumption]];
          (eapply isAllowed_new; [|reflexivity]);
          apply in_or_app; right; cbn [In]; auto 6.
      * intros Hl. destruct (Hrecords _ _ Hl) as (?&?&?&?&?&?).
        repeat split; apply Hold; assumption.
    + intros id user entry. rewrite lookup_insert.
      destruct (decide ((id0, from) = (id, user))) as [[= _ <-]|_].
      * intros [= <-].
        split; (eapply isAllowed_new; [|reflexivity]);
          apply in_or_app; right; cbn [In]; auto 6.
      * intros Hl. destruct (Hentries _ _ _ Hl).
        split; apply Hold; assumption.
  - (* settlement: the zero left behind was granted at creation *)
    assert (Hold : forall h who,
              isAllowed h who w = true ->
              isAllowed h who (settled confidentialTransfer env id0 w) = true)
      by (intros h who Hw; eapply isAllowed_grows; [|exact Hw];
          reflexivity).
    pose proof (existing_campaign_stored w id0 Hc) as Hstored.
    destruct (Hrecords _ _ Hstored) as (Ht1 & Ht2 & _ & _ & Hz1 & Hz2).
    split; cbn [settled staged _campaigns _contributions this with_events
                with_token].
    + intros id campaign. rewrite lookup_insert.
      destruct (decide (id0 = id)) as [_|_].
      * intros [= <-].
        cbn [target totalRaised creator set_totalRaised set_ended].
        repeat split; apply Hold; assumption.
      * intros Hl. destruct (Hrecords _ _ Hl) as (?&?&?&?&?&?).
        repeat split; apply Hold; assumption.
    + intros id user entry Hl. destruct (Hentries _ _ _ Hl).
      split; apply Hold; assumption.
Qed.

Lemma granted_run txs w :
  granted w -> granted (run confidentialTransfer txs w).
Proof.
  revert w. induction txs as [|tx txs IH]; intros w Hg; [assumption|].
  cbn [run]. apply IH, granted_transact, Hg.
Qed.

(** C8: a successful creation lets the creator and the contract decrypt the
    stored target and the stored zero total; an accepted contribution lets
    the contract, the campaign's creator and the contributor decrypt the new
    total, and the contract and the contributor decrypt the contributor's
    new entry; a successful settlement lets the creator decrypt the total
    captured as payout; no transaction, committed or reverted, takes a
    permission away; and so, in every state reached from deployment, the
    target and the total of every stored campaign record may be decrypted
    by the contract and by its creator, and every stored entry by the
    contract and by its contributor. *)
Theorem grants_accompany_mutations :
  (forall env nm tg dl w id w',
     createCampaign env nm tg dl w = Success id w' ->
     let campaign := campaign_at id w' in
     creator campaign = msg_sender env /\
     target campaign = FHE_asEuint64 tg /\
     totalRaised campaign = FHE_asEuint64 0 /\
     isAllowed (H64 (target campaign)) (creator campaign) w' = true /\
     isAllowed (H64 (target campaign)) (this w') w' = true /\
     isAllowed (H64 (totalRaised campaign)) (creator campaign) w' = true /\
     isAllowed (H64 (totalRaised campaign)) (this w') w' = true) /\
  (forall env operator from amount data w flag w' campaignId,
     onConfidentialTransferReceived env operator from amount data w
       = Success flag w' ->
     abi_decode_uint256 data = Some campaignId ->
     let campaign := campaign_at campaignId w' in
     let entry := contributionOf campaignId from w' in
     isAllowed (H64 (totalRaised campaign)) (this w') w' = true /\
     isAllowed (H64 (totalRaised campaign)) (creator campaign) w' = true /\
     isAllowed (H64 (totalRaised campaign)) from w' = true /\
     isAllowed (H64 entry) (this w') w' = true /\
     isAllowed (H64 entry) from w' = true) /\
  (forall env campaignId w payout w',
     endCampaign confidentialTransfer env campaignId w = Success payout w' ->
     let captured := totalRaised (campaign_at campaignId w) in
     msg_sender env = creator (campaign_at campaignId w') /\
     isAllowed (H64 captured) (creator (campaign_at campaignId w')) w' = true) /\
  (forall tx w h who,
     isAllowed h who w = true ->
     isAllowed h who (transact confidentialTransfer tx w).1 = true) /\
  (forall self tokenAddress (l : Ledger) txs,
     let w := run confidentialTransfer txs (constructor self tokenAddress l) in
     (forall id campaign,
        _campaigns w !! id = Some campaign ->
        isAllowed (H64 (target campaign)) (creator campaign) w = true /\
        isAllowed (H64 (target campaign)) (this w) w = true /\
        isAllowed (H64 (totalRaised campaign)) (creator campaign) w = true /\
        isAllowed (H64 (totalRaised campaign)) (this w) w = true) /\
     (forall id user entry,
        _contributions w !! (id, user) = Some entry ->
        isAllowed (H64 entry) user w = true /\
        isAllowed (H64 entry) (this w) w = true)).
Proof.
  split; [|split; [|split; [|split]]].
  - intros env nm tg dl w id w' H.
    apply createCampaign_success in H as (_ & _ & _ & _ & -> & ->).
    cbv zeta. rewrite campaign_at_created, decide_True by reflexivity.
    cbn [creator target totalRaised].
    repeat split; (eapply isAllowed_new; [|reflexivity]);
      apply in_or_app; right; cbn; tauto.
  - intros env operator from amount data w flag w' campaignId H Hd.
    apply onConfidentialTransferReceived_success in H
      as (_ & id & Hd' & _ & _ & _ & _ & ->).
    assert (id = campaignId) as -> by congruence.
    cbv zeta. unfold contributionOf.
    rewrite campaign_at_contributed, contribution_at_contributed.
    rewrite !decide_True by reflexivity.
    cbn [creator totalRaised set_totalRaised].
    repeat split; (eapply isAllowed_new; [|reflexivity]);
      apply in_or_app; right; cbn; tauto.
  - intros env campaignId w payout w' H.
    apply endCampaign_success in H as (_ & Hs & _ & _ & ->).
    cbv zeta. rewrite campaign_at_settled, decide_True by reflexivity.
    cbn [creator set_totalRaised set_ended].
    split; [exact Hs|].
    eapply isAllowed_new; [|reflexivity].
    apply in_or_app; right. rewrite <- Hs. cbn. tauto.
  - intros tx w h who H. destruct (transact_acl tx w) as [l Hl].
    eapply isAllowed_grows; eassumption.
  - intros self tokenAddress l txs. cbv zeta.
    destruct (granted_run txs _ (granted_constructor self tokenAddress l))
      as [Hrecords Hentries].
    split; [|exact Hentries].
    intros id campaign Hl. destruct (Hrecords _ _ Hl) as (?&?&?&?&_).
    auto.
Qed.

End Properties.

(** * Further properties of the contract and its client *)

Section Coverage.

Context {Ledger : Type}.
Variable confidentialTransfer :
  address -> address -> euint64 -> Ledger -> euint64 * Ledger.

Implicit Types (w : World Ledger) (env : Env) (tx : Env * Call).

(** ** Which slots are written *)

Lemma indexed_constructor self tokenAddress (l : Ledger) :
  indexed (constructor self tokenAddress l).
Proof.
  split; [cbn; lia|]. split.
  - intros id. cbn [constructor _campaigns campaignCount].
    rewrite lookup_empty. split; [intros [? [=]]|lia].
  - intros id user. cbn [constructor _contributions].
    rewrite lookup_empty. intros [? [=]].
Qed.

Lemma existing_campaign_indexed w id :
  indexed w -> creator (campaign_at id w) <> address_zero ->
  1 <= id <= campaignCount w.
Proof.
  intros (_ & Hslots & _) Hc. apply Hslots.
  rewrite (existing_campaign_stored w id Hc). eauto.
Qed.

Lemma indexed_transact tx w :
  indexed w -> indexed (transact confidentialTransfer tx w).1.
Proof.
  intros Hix.
  destruct (transact_cases confidentialTransfer tx w)
    as [[e ->]|[(env & nm & tg & dl & _ & _ & ->)
       |[(env & operator & from & amount & data & id0 & _ & _ & Hc & _ & ->)
        |(env & id0 & _ & Hc & _ & ->)]]]; cbn [fst]; [assumption|..].
  - destruct Hix as (H0 & Hslots & Hentries).
    split; [|split]; cbn [created campaignCount _campaigns _contributions].
    + lia.
    + intros id. rewrite lookup_insert_is_Some, Hslots. lia.
    + intros id user Hs. specialize (Hentries id user Hs). lia.
  - pose proof (existing_campaign_indexed w id0 Hix Hc) as Hin.
    destruct Hix as (H0 & Hslots & Hentries).
    split; [|split]; cbn [contributed campaignCount _campaigns _contributions].
    + assumption.
    + intros id. rewrite lookup_insert_is_Some, Hslots. lia.
    + intros id user. rewrite lookup_insert_is_Some.
      intros [[= <- <-]|[_ Hs]]; [assumption|apply (Hentries id user Hs)].
  - pose proof (existing_campaign_indexed w id0 Hix Hc) as Hin.
    destruct Hix as (H0 & Hslots & Hentries).
    split; [|split];
      cbn [settled staged campaignCount _campaigns _contributions with_events
           with_token].
    + assumption.
    + intros id. rewrite lookup_insert_is_Some, Hslots. lia.
    + assumption.
Qed.

Lemma indexed_run txs w :
  indexed w -> indexed (run confidentialTransfer txs w).
Proof.
  revert w. induction txs as [|tx txs IH]; intros w Hix; [assumption|].
  cbn [run]. apply IH, indexed_transact, Hix.
Qed.

(** ** Creation and the read-only queries *)

(** X1: a creation succeeds exactly when the name is not empty, the target
    is positive, the deadline is after the current time and the counter
    can still be incremented; it then returns the counter plus one, and
    [getCampaign] on that id reads back the name, the encrypted target,
    the deadline, an unset flag, an encrypted zero and the caller, while
    every other record and every contribution entry reads as before.
    With otherwise valid arguments and the counter at its maximum the
    increment panics and nothing is written. *)
Theorem createCampaign_stores_record env nm tg dl w :
  ((exists id w', createCampaign env nm tg dl w = Success id w') <->
   nm <> EmptyString /\ 0 < tg /\ block_timestamp env < dl /\
   campaignCount w < uint256_max) /\
  (forall id w',
     createCampaign env nm tg dl w = Success id w' ->
     id = campaignCount w + 1 /\
     campaignCount w' = id /\
     getCampaign id w'
       = (nm, FHE_asEuint64 tg, dl, false, FHE_asEuint64 0, msg_sender env) /\
     (0 <= tg < uint64_modulus -> decrypt (target (campaign_at id w')) = tg) /\
     isCampaignActive env id w'
       = negb (bool_decide (msg_sender env = address_zero)) /\
     (forall id', id' <> id -> getCampaign id' w' = getCampaign id' w) /\
     (forall id' user, contributionOf id' user w' = contributionOf id' user w)) /\
  (nm <> EmptyString -> 0 < tg -> block_timestamp env < dl ->
   campaignCount w = uint256_max ->
   createCampaign env nm tg dl w = Reverted (Panic 17) w).
Proof.
  assert (Hguards : nm <> EmptyString -> 0 < tg -> block_timestamp env < dl ->
            createCampaign env nm tg dl w =
              if negb (campaignCount w + 1 <=? uint256_max)
              then Reverted (Panic 17) w
              else Success (campaignCount w + 1) (created env nm tg dl w)).
  { intros Hn Ht Hd. rewrite createCampaign_eq.
    destruct (0 <? Z.of_nat (String.length nm)) eqn:Hlen;
      [|apply length_zero_empty in Hlen; contradiction].
    apply Z.ltb_lt in Ht, Hd. rewrite Ht, Hd. reflexivity. }
  split; [|split].
  - split.
    + intros (id & w' & H).
      apply createCampaign_success in H as (? & ? & ? & ? & _).
      repeat split; try assumption; lia.
    + intros (Hn & Ht & Hd & Hc). rewrite (Hguards Hn Ht Hd).
      assert ((campaignCount w + 1 <=? uint256_max) = true) as ->
        by (apply Z.leb_le; lia).
      cbn [negb]. eauto.
  - intros id w' H.
    apply createCampaign_success in H as (_ & _ & Hd & _ & -> & ->).
    split; [reflexivity|]. split; [reflexivity|].
    unfold getCampaign, isCampaignActive, contributionOf.
    rewrite campaign_at_created, decide_True by reflexivity.
    cbn [name target deadline ended totalRaised creator negb].
    split; [reflexivity|]. split.
    { intros Hrange. cbn [FHE_asEuint64 decrypt]. apply Z.mod_small, Hrange. }
    split.
    { assert ((block_timestamp env <=? dl) = true) as ->
        by (apply Z.leb_le; lia).
      rewrite !andb_true_r. reflexivity. }
    split; [|reflexivity].
    intros id' Hne. rewrite campaign_at_created, decide_False by congruence.
    reflexivity.
  - intros Hn Ht Hd Hc. rewrite (Hguards Hn Ht Hd), Hc. reflexivity.
Qed.

(** X2: in every state reached from deployment, an id below 1 or above the
    counter reads as the zero record: [getCampaign] returns the empty
    name, uninitialised handles, a zero deadline, an unset flag and the
    zero creator, [contributionOf] an uninitialised handle for every
    account and [isCampaignActive] no; [endCampaign] and the token's
    callback for such an id revert with "Campaign not found". *)
Theorem unknown_campaign_reads_zero self tokenAddress (l : Ledger) txs id :
  let w := run confidentialTransfer txs (constructor self tokenAddress l) in
  id < 1 \/ campaignCount w < id ->
  getCampaign id w = (EmptyString, Uninit, 0, false, Uninit, address_zero) /\
  (forall user, contributionOf id user w = Uninit) /\
  (forall env, isCampaignActive env id w = false) /\
  (forall env,
     endCampaign confidentialTransfer env id w
       = Reverted (Error "Campaign not found") w) /\
  (forall env operator from amount data,
     msg_sender env = paymentToken w ->
     abi_decode_uint256 data = Some id ->
     onConfidentialTransferReceived env operator from amount data w
       = Reverted (Error "Campaign not found") w).
Proof.
  cbv zeta. intros Hout.
  pose proof (indexed_run txs _ (indexed_constructor self tokenAddress l))
    as (_ & Hslots & Hentries).
  set (w := run confidentialTransfer txs (constructor self tokenAddress l)) in *.
  assert (Hnone : _campaigns w !! id = None).
  { destruct (_campaigns w !! id) eqn:Hl; [|reflexivity].
    assert (1 <= id <= campaignCount w) by (apply Hslots; eauto). lia. }
  pose proof (absent_campaign w id Hnone) as Hzero.
  split; [unfold getCampaign; rewrite Hzero; reflexivity|].
  split.
  { intros user. unfold contributionOf, contribution_at.
    rewrite lookup_total_alt.
    destruct (_contributions w !! (id, user)) eqn:Hl; [|reflexivity].
    assert (1 <= id <= campaignCount w) by (apply (Hentries id user); eauto).
    lia. }
  split; [intros env; unfold isCampaignActive; rewrite Hzero; reflexivity|].
  split.
  - intros env. rewrite endCampaign_closed. cbv zeta. rewrite Hzero.
    reflexivity.
  - intros env operator from amount data Hs Hd.
    rewrite onConfidentialTransferReceived_eq.
    rewrite bool_decide_eq_true_2 by assumption. cbn [negb].
    rewrite Hd. cbv zeta. rewrite Hzero. reflexivity.
Qed.

Lemma created_ids_consecutive txs w :
  created_ids confidentialTransfer txs w =
    map (fun index : nat => campaignCount w + Z.of_nat index + 1)
        (seq 0 (length (created_ids confidentialTransfer txs w))).
Proof.
  revert w. induction txs as [|tx txs IH]; intros w; [reflexivity|].
  cbn [created_ids]. rewrite (IH (transact confidentialTransfer tx w).1) at 1.
  destruct (transact_cases confidentialTransfer tx w)
    as [[e Ht]|[(env & nm & tg & dl & _ & _ & Ht)
       |[(env & operator & from & amount & data & id & _ & _ & _ & _ & Ht)
        |(env & id & _ & _ & _ & Ht)]]];
    rewrite Ht; cbn [fst snd app]; try reflexivity.
  cbn [created campaignCount length seq map].
  f_equal; [lia|]. rewrite <- seq_shift, map_map.
  apply map_ext. intros index. lia.
Qed.

(** X3: after any trace from deployment the counter is the number of
    campaigns created, the ids returned by the creations are, in order,
    exactly the ids the client enumerates from the counter, 1 up to the
    counter, and a campaign record is stored under an id exactly when the
    id is in that list. *)
Theorem campaign_ids_enumerated self tokenAddress (l : Ledger) txs :
  let start := constructor self tokenAddress l in
  let w := run confidentialTransfer txs start in
  campaignCount w < 2 ^ 32 ->
  campaignCount w
    = Z.of_nat (length (created_ids confidentialTransfer txs start)) /\
  campaignIds (Some (campaignCount w))
    = created_ids confidentialTransfer txs start /\
  (forall id,
     is_Some (_campaigns w !! id) <-> In id (campaignIds (Some (campaignCount w)))).
Proof.
  cbv zeta. intros _.
  destruct (created_ids_counted confidentialTransfer txs
              (constructor self tokenAddress l)) as [Hcount _].
  cbn [constructor campaignCount] in Hcount.
  pose proof (indexed_run txs _ (indexed_constructor self tokenAddress l))
    as (_ & Hslots & _).
  assert (Hids : campaignIds
                   (Some (campaignCount
                            (run confidentialTransfer txs
                               (constructor self tokenAddress l))))
                 = created_ids confidentialTransfer txs
                     (constructor self tokenAddress l)).
  { etransitivity; [|symmetry; apply created_ids_consecutive].
    unfold campaignIds, default. cbn [from_option constructor campaignCount].
    unfold id. rewrite Hcount, Z.add_0_l, Nat2Z.id.
    destruct (length (created_ids confidentialTransfer txs
                        (constructor self tokenAddress l))) as [|n];
      [reflexivity|].
    assert ((Z.of_nat (S n) =? 0) = false) as -> by (apply Z.eqb_neq; lia).
    apply map_ext. intros index. lia. }
  split; [lia|]. split; [exact Hids|].
  intros id. rewrite Hslots, Hids.
  destruct (created_ids_counted confidentialTransfer txs
              (constructor self tokenAddress l)) as [_ Hin].
  cbn [constructor campaignCount] in Hin.
  split; [|intros H; specialize (Hin id H); lia].
  intros Hrange.
  rewrite (created_ids_consecutive txs (constructor self tokenAddress l)).
  cbn [constructor campaignCount]. apply in_map_iff.
  exists (Z.to_nat (id - 1)). split; [lia|]. apply in_seq. lia.
Qed.

Lemma step_metadata tx w id campaign :
  indexed w -> _campaigns w !! id = Some campaign ->
  exists campaign',
    _campaigns (transact confidentialTransfer tx w).1 !! id = Some campaign' /\
    name campaign' = name campaign /\ target campaign' = target campaign /\
    deadline campaign' = deadline campaign /\
    creator campaign' = creator campaign.
Proof.
  intros Hix Hl.
  assert (Hat : campaign_at id w = campaign)
    by (unfold campaign_at; rewrite lookup_total_alt, Hl; reflexivity).
  destruct (transact_cases confidentialTransfer tx w)
    as [[e ->]|[(env & nm & tg & dl & _ & _ & ->)
       |[(env & operator & from & amount & data & id0 & _ & _ & Hc & _ & ->)
        |(env & id0 & _ & Hc & _ & ->)]]]; cbn [fst]; [eauto 6|..].
  - destruct Hix as (_ & Hslots & _).
    assert (1 <= id <= campaignCount w) by (apply Hslots; eauto).
    exists campaign. cbn [created _campaigns].
    rewrite lookup_insert_ne by lia. auto.
  - cbn [contributed _campaigns]. rewrite lookup_insert.
    destruct (decide (id0 = id)) as [->|_]; [|eauto 6].
    rewrite Hat. eexists. split; [reflexivity|]. auto.
  - cbn [settled staged _campaigns with_events with_token].
    rewrite lookup_insert.
    destruct (decide (id0 = id)) as [->|_]; [|eauto 6].
    rewrite Hat. eexists. split; [reflexivity|]. auto.
Qed.

Lemma run_metadata txs w id campaign :
  indexed w -> _campaigns w !! id = Some campaign ->
  exists campaign',
    _campaigns (run confidentialTransfer txs w) !! id = Some campaign' /\
    name campaign' = name campaign /\ target campaign' = target campaign /\
    deadline campaign' = deadline campaign /\
    creator campaign' = creator campaign.
Proof.
  revert w campaign. induction txs as [|tx txs IH]; intros w campaign Hix Hl.
  { exists campaign. auto. }
  cbn [run].
  destruct (step_metadata tx w id campaign Hix Hl)
    as (c1 & Hl1 & Hn1 & Ht1 & Hd1 & Hc1).
  destruct (IH _ c1 (indexed_transact tx w Hix) Hl1)
    as (c2 & Hl2 & Hn2 & Ht2 & Hd2 & Hc2).
  exists c2. split; [exact Hl2|]. repeat split; congruence.
Qed.

(** X4: once a campaign record is stored, no later transaction of any kind
    changes its name, its encrypted target, its deadline or its creator,
    and the record stays stored. *)
Theorem campaign_metadata_immutable self tokenAddress (l : Ledger) pre post id
    campaign :
  let start := constructor self tokenAddress l in
  _campaigns (run confidentialTransfer pre start) !! id = Some campaign ->
  exists campaign',
    _campaigns (run confidentialTransfer (pre ++ post) start) !! id
      = Some campaign' /\
    name campaign' = name campaign /\ target campaign' = target campaign /\
    deadline campaign' = deadline campaign /\
    creator campaign' = creator campaign.
Proof.
  cbv zeta. intros Hl. rewrite run_app.
  apply run_metadata; [|exact Hl].
  apply indexed_run, indexed_constructor.
Qed.

(** ** Being active *)

Lemma inactive_callback_reverts env operator from amount data id w :
  abi_decode_uint256 data = Some id ->
  isCampaignActive env id w = false ->
  exists e,
    onConfidentialTransferReceived env operator from amount data w
      = Reverted e w /\
    (msg_sender env = paymentToken w ->
     e = Error "Campaign not found" \/ e = Error "Campaign already ended" \/
     e = Error "Campaign expired").
Proof.
  intros Hd Hactive. unfold isCampaignActive in Hactive. cbv zeta in Hactive.
  rewrite onConfidentialTransferReceived_eq, Hd. cbv zeta.
  destruct (bool_decide (msg_sender env = paymentToken w)) eqn:Hs;
    cbn [negb].
  - destruct (bool_decide (creator (campaign_at id w) = address_zero));
      [eauto 6|].
    destruct (ended (campaign_at id w)); [eauto 6|].
    cbn [negb andb] in Hactive. rewrite Hactive. cbn [negb]. eauto 6.
  - apply bool_decide_eq_false_1 in Hs. eexists. split; [reflexivity|].
    intros Hs'. contradiction.
Qed.

(** X5: the callback accepts a transfer only from the payment token and
    only for an id for which [isCampaignActive] answers yes at the same
    time; when the view answers no for the id the data decodes to, the
    callback reverts in the state it was called in, and, called by the
    payment token, with "Campaign not found", "Campaign already ended" or
    "Campaign expired". *)
Theorem contribution_accepted_only_if_active env operator from amount data w :
  ((exists flag w',
      onConfidentialTransferReceived env operator from amount data w
        = Success flag w') ->
   msg_sender env = paymentToken w /\
   exists id,
     abi_decode_uint256 data = Some id /\ isCampaignActive env id w = true) /\
  (forall id,
     abi_decode_uint256 data = Some id ->
     isCampaignActive env id w = false ->
     exists e,
       onConfidentialTransferReceived env operator from amount data w
         = Reverted e w /\
       (msg_sender env = paymentToken w ->
        e = Error "Campaign not found" \/
        e = Error "Campaign already ended" \/
        e = Error "Campaign expired")).
Proof.
  split; [|intros id; apply inactive_callback_reverts].
  unfold isCampaignActive. intros (flag & w' & H).
  apply onConfidentialTransferReceived_success in H
    as (Hs & id & Hd & Hc & He & Hdl & _).
  split; [exact Hs|]. exists id. split; [exact Hd|]. cbv zeta.
  rewrite bool_decide_eq_false_2 by assumption. rewrite He.
  apply Z.leb_le in Hdl. rewrite Hdl. reflexivity.
Qed.

Lemma stored_campaign_at w id campaign :
  _campaigns w !! id = Some campaign -> campaign_at id w = campaign.
Proof.
  intros Hl. unfold campaign_at. rewrite lookup_total_alt, Hl. reflexivity.
Qed.

(** X6: a stored campaign that is not active stays so: if
    [isCampaignActive] answers no for it at some time in some state
    reached from deployment, it answers no in every later state at every
    time that is not earlier, and every callback for it reverts there. *)
Theorem inactive_stays_inactive self tokenAddress (l : Ledger) pre post id env
    env' :
  let start := constructor self tokenAddress l in
  let w := run confidentialTransfer pre start in
  let later := run confidentialTransfer (pre ++ post) start in
  is_Some (_campaigns w !! id) ->
  isCampaignActive env id w = false ->
  block_timestamp env <= block_timestamp env' ->
  isCampaignActive env' id later = false /\
  (forall operator from amount data,
     abi_decode_uint256 data = Some id ->
     exists e,
       onConfidentialTransferReceived env' operator from amount data later
         = Reverted e later).
Proof.
  cbv zeta. intros [campaign Hl] Hinactive Htime.
  pose proof (wf_run confidentialTransfer pre _
                (wf_constructor self tokenAddress l)) as Hwf.
  pose proof (indexed_run pre _ (indexed_constructor self tokenAddress l))
    as Hix.
  rewrite run_app.
  set (w := run confidentialTransfer pre (constructor self tokenAddress l)) in *.
  destruct (run_metadata post w id campaign Hix Hl)
    as (campaign' & Hl' & _ & _ & Hd & Hc).
  destruct (settlements_once confidentialTransfer post w id Hwf) as [Hended _].
  pose proof (stored_campaign_at _ _ _ Hl) as Hat.
  pose proof (stored_campaign_at _ _ _ Hl') as Hat'.
  assert (Hlater : isCampaignActive env' id (run confidentialTransfer post w)
                   = false).
  { unfold isCampaignActive in *. cbv zeta in *.
    rewrite Hat in Hinactive. rewrite Hat', Hc, Hd.
    destruct (bool_decide (creator campaign = address_zero)); [reflexivity|].
    cbn [negb andb] in *.
    destruct (ended campaign) eqn:He.
    - rewrite Hat in Hended. destruct (Hended He) as (_ & He' & _).
      rewrite Hat' in He'. rewrite He'. reflexivity.
    - cbn [negb andb] in Hinactive. apply Z.leb_gt in Hinactive.
      assert ((block_timestamp env' <=? deadline campaign) = false) as ->
        by (apply Z.leb_gt; lia).
      apply andb_false_r. }
  split; [exact Hlater|].
  intros operator from amount data Hdec.
  rewrite onConfidentialTransferReceived_eq.
  unfold isCampaignActive in Hlater. cbv zeta in Hlater.
  destruct (negb (bool_decide (msg_sender env' = paymentToken _)));
    [eauto|].
  rewrite Hdec. cbv zeta.
  destruct (bool_decide
              (creator (campaign_at id (run confidentialTransfer post w))
               = address_zero)); [eauto|].
  destruct (ended (campaign_at id (run confidentialTransfer post w)));
    [eauto|].
  cbn [negb andb] in Hlater. rewrite Hlater. cbn [negb]. eauto.
Qed.

(** ** Notifications and the token *)

Lemma transact_effects tx w :
  let w' := (transact confidentialTransfer tx w).1 in
  this w' = this w /\ paymentToken w' = paymentToken w /\
  match (transact confidentialTransfer tx w).2 with
  | inl _ => w' = w
  | inr (ReturnedId id) =>
      exists nm tg dl,
        tx.2 = CreateCampaign nm tg dl /\
        token w' = token w /\
        events w' = (events w
                     ++ [CampaignCreated id nm tg dl (msg_sender tx.1)])%list
  | inr (ReturnedFlag flag) =>
      exists operator from amount data id,
        tx.2 = OnConfidentialTransferReceived operator from amount data /\
        abi_decode_uint256 data = Some id /\
        msg_sender tx.1 = paymentToken w /\
        token w' = token w /\
        events w' = (events w ++ [Contributed id from amount])%list
  | inr (ReturnedPayout payout) =>
      exists id,
        tx.2 = EndCampaign id /\
        msg_sender tx.1 = creator (campaign_at id w) /\
        (payout, token w') =
          confidentialTransfer (this w) (creator (campaign_at id w))
            (totalRaised (campaign_at id w)) (token w) /\
        events w' = (events w
                     ++ [CampaignEnded id (msg_sender tx.1) payout])%list
  end.
Proof.
  destruct tx as [env [nm tg dl|operator from amount data|campaignId]];
    cbv zeta.
  - rewrite transact_create.
    destruct (createCampaign env nm tg dl w) as [id w'|e w'] eqn:H;
      cbn [fst snd]; [|auto].
    apply createCampaign_success in H as (_ & _ & _ & _ & -> & ->).
    split; [reflexivity|]. split; [reflexivity|]. exists nm, tg, dl. auto.
  - rewrite transact_transfer.
    destruct (onConfidentialTransferReceived env operator from amount data w)
      as [flag w'|e w'] eqn:H; cbn [fst snd]; [|auto].
    apply onConfidentialTransferReceived_success in H
      as (Hs & id & Hd & _ & _ & _ & _ & ->).
    split; [reflexivity|]. split; [reflexivity|].
    exists operator, from, amount, data, id. auto.
  - rewrite transact_end.
    destruct (endCampaign confidentialTransfer env campaignId w)
      as [payout w'|e w'] eqn:H; cbn [fst snd]; [|auto].
    apply endCampaign_success in H as (_ & Hs & _ & -> & ->).
    split; [reflexivity|]. split; [reflexivity|].
    exists campaignId. split; [reflexivity|]. split; [exact Hs|].
    cbn [settled token events with_events with_token]. rewrite <- Hs.
    split; [|reflexivity].
    destruct (confidentialTransfer _ _ _ _); reflexivity.
Qed.

(** X7: every committed transaction appends exactly one notification to the
    log, of the kind of its call and carrying its campaign id, the caller or
    contributor and, for contributions and settlements, a ciphertext handle;
    a reverted transaction appends none; so the log of a trace only grows
    at its end and has as many entries as the trace has commits. *)
Theorem one_event_per_commit :
  (forall tx w,
     let w' := (transact confidentialTransfer tx w).1 in
     match (transact confidentialTransfer tx w).2 with
     | inl _ => events w' = events w
     | inr (ReturnedId id) =>
         exists nm tg dl,
           tx.2 = CreateCampaign nm tg dl /\
           events w' = (events w
                        ++ [CampaignCreated id nm tg dl (msg_sender tx.1)])%list
     | inr (ReturnedFlag flag) =>
         exists operator from amount data id,
           tx.2 = OnConfidentialTransferReceived operator from amount data /\
           abi_decode_uint256 data = Some id /\
           events w' = (events w ++ [Contributed id from amount])%list
     | inr (ReturnedPayout payout) =>
         exists id,
           tx.2 = EndCampaign id /\
           events w' = (events w
                        ++ [CampaignEnded id (msg_sender tx.1) payout])%list
     end) /\
  (forall txs w,
     events w `prefix_of` events (run confidentialTransfer txs w) /\
     length (events (run confidentialTransfer txs w))
       = (length (events w) + commits confidentialTransfer txs w)%nat).
Proof.
  split.
  - intros tx w. cbv zeta.
    destruct (transact_effects tx w) as (_ & _ & H). cbv zeta in H.
    destruct (transact confidentialTransfer tx w).2 as [e|[id|flag|payout]].
    + rewrite H. reflexivity.
    + destruct H as (nm & tg & dl & ? & _ & ?). eauto.
    + destruct H as (operator & from & amount & data & id & ? & ? & _ & _ & ?).
      eauto 10.
    + destruct H as (id & ? & _ & _ & ?). eauto.
  - intros txs. induction txs as [|tx txs IH]; intros w.
    { cbn [run commits]. split; [reflexivity|lia]. }
    cbn [run commits].
    destruct (IH (transact confidentialTransfer tx w).1) as [IHp IHl].
    destruct (transact_effects tx w) as (_ & _ & H). cbv zeta in H.
    destruct (transact confidentialTransfer tx w).2 as [e|[id|flag|payout]].
    + rewrite H in *. split; [exact IHp|exact IHl].
    + destruct H as (nm & tg & dl & _ & _ & He). rewrite He in *.
      split; [etransitivity; [apply prefix_app_r; reflexivity|exact IHp]|].
      rewrite IHl, length_app. cbn [length]. lia.
    + destruct H as (operator & from & amount & data & id & _ & _ & _ & _ & He).
      rewrite He in *.
      split; [etransitivity; [apply prefix_app_r; reflexivity|exact IHp]|].
      rewrite IHl, length_app. cbn [length]. lia.
    + destruct H as (id & _ & _ & _ & He). rewrite He in *.
      split; [etransitivity; [apply prefix_app_r; reflexivity|exact IHp]|].
      rewrite IHl, length_app. cbn [length]. lia.
Qed.

(** X8: the contract calls the token in one place only.  A transaction
    that is not a successful [endCampaign] leaves the token's state, and so
    what [treasuryBalance] returns, as it was; a successful [endCampaign]
    makes exactly one transfer, from the contract to the campaign's
    creator, of the total the campaign held, and returns the handle the
    token hands back. *)
Theorem token_called_only_by_settlement confidentialBalanceOf tx w :
  let w' := (transact confidentialTransfer tx w).1 in
  match (transact confidentialTransfer tx w).2 with
  | inr (ReturnedPayout payout) =>
      exists id,
        tx.2 = EndCampaign id /\
        msg_sender tx.1 = creator (campaign_at id w) /\
        (payout, token w') =
          confidentialTransfer (this w) (creator (campaign_at id w))
            (totalRaised (campaign_at id w)) (token w)
  | _ =>
      token w' = token w /\
      treasuryBalance confidentialBalanceOf w'
        = treasuryBalance confidentialBalanceOf w
  end.
Proof.
  cbv zeta. unfold treasuryBalance.
  destruct (transact_effects tx w) as (Hthis & _ & H). cbv zeta in H.
  rewrite Hthis.
  destruct (transact confidentialTransfer tx w).2 as [e|[id|flag|payout]].
  - rewrite H. auto.
  - destruct H as (nm & tg & dl & _ & -> & _). auto.
  - destruct H as (operator & from & amount & data & id & _ & _ & _ & -> & _).
    auto.
  - destruct H as (id & ? & ? & ? & _). eauto.
Qed.

Lemma run_immutables txs w :
  this (run confidentialTransfer txs w) = this w /\
  paymentToken (run confidentialTransfer txs w) = paymentToken w.
Proof.
  revert w. induction txs as [|tx txs IH]; intros w; [auto|].
  cbn [run]. destruct (IH (transact confidentialTransfer tx w).1) as [-> ->].
  destruct (transact_effects tx w) as (? & ? & _). auto.
Qed.

(** X9: the two addresses fixed at deployment never change, so in every
    state reached from deployment the only caller whose callback can be
    accepted is the token the contract was deployed with, whatever the
    data; any other caller is turned away with "Unsupported token". *)
Theorem only_deployment_token_contributes self tokenAddress (l : Ledger) txs
    env operator from amount data :
  let w := run confidentialTransfer txs (constructor self tokenAddress l) in
  this w = self /\ paymentToken w = tokenAddress /\
  ((exists flag w',
      onConfidentialTransferReceived env operator from amount data w
        = Success flag w') ->
   msg_sender env = tokenAddress) /\
  (msg_sender env <> tokenAddress ->
   onConfidentialTransferReceived env operator from amount data w
     = Reverted (Error "Unsupported token") w).
Proof.
  cbv zeta.
  destruct (run_immutables txs (constructor self tokenAddress l))
    as [Hthis Htoken].
  cbn [constructor this paymentToken] in Hthis, Htoken.
  split; [exact Hthis|]. split; [exact Htoken|]. split.
  - intros (flag & w' & H).
    apply onConfidentialTransferReceived_success in H as (Hs & _).
    congruence.
  - intros Hs. rewrite onConfidentialTransferReceived_eq, Htoken.
    rewrite bool_decide_eq_false_2 by assumption. reflexivity.
Qed.

(** X10: when [endCampaign] succeeds in a state reached from deployment,
    the amount it asks the token to move to the creator is the campaign's
    total, which decrypts to the sum, modulo 2^64, of all the amounts the
    campaign accepted, and to the exact sum when that is below 2^64. *)
Theorem payout_is_accumulated_total self tokenAddress (l : Ledger) pre env id
    payout w' :
  let start := constructor self tokenAddress l in
  let w := run confidentialTransfer pre start in
  let pledged := amounts_to id (accepted confidentialTransfer pre start) in
  endCampaign confidentialTransfer env id w = Success payout w' ->
  exists captured,
    captured = totalRaised (campaign_at id w) /\
    (payout, token w') =
      confidentialTransfer self (msg_sender env) captured (token w) /\
    decrypt captured = sum_amounts pledged mod uint64_modulus /\
    (sum_amounts pledged < uint64_modulus ->
     decrypt captured = sum_amounts pledged).
Proof.
  cbv zeta. intros H.
  apply endCampaign_success in H as (_ & _ & He & -> & ->).
  destruct (accounted_run confidentialTransfer pre _ []
              (wf_constructor self tokenAddress l)
              (accounted_constructor self tokenAddress l))
    as (_ & Htotal & _).
  cbn [app] in Htotal.
  destruct (run_immutables pre (constructor self tokenAddress l)) as [Hthis _].
  cbn [constructor this] in Hthis.
  eexists. split; [reflexivity|]. split; [|split].
  - cbn [settled token with_events with_token]. rewrite Hthis.
    destruct (confidentialTransfer _ _ _ _); reflexivity.
  - apply Htotal, He.
  - intros Hsmall. rewrite (Htotal _ He).
    apply Z.mod_small. split; [apply sum_amounts_nonneg|exact Hsmall].
Qed.

(** ** Who is granted what *)

(** X11: a transaction gives decrypt permission to nobody but the contract
    itself, the caller and, when it is an accepted contribution, the
    contributor and the creator of the campaign contributed to. *)
Theorem grants_only_to_parties tx w h who :
  (h, who) ∈ acl (transact confidentialTransfer tx w).1 ->
  (h, who) ∈ acl w \/
  who = this w \/
  who = msg_sender tx.1 \/
  exists operator from amount data id,
    tx.2 = OnConfidentialTransferReceived operator from amount data /\
    abi_decode_uint256 data = Some id /\
    (who = from \/ who = creator (campaign_at id w)).
Proof.
  destruct (transact_cases confidentialTransfer tx w)
    as [[e ->]|[(env & nm & tg & dl & -> & _ & ->)
       |[(env & operator & from & amount & data & id0 & -> & Hd & _ & _ & ->)
        |(env & id0 & -> & _ & _ & ->)]]]; cbn [fst snd]; [auto|..].
  - cbn [created acl]. rewrite elem_of_app, !elem_of_cons, elem_of_nil.
    intros [?|[[= _ ->]|[[= _ ->]|[[= _ ->]|[[= _ ->]|[]]]]]]; auto.
  - cbn [contributed acl]. rewrite elem_of_app, !elem_of_cons, elem_of_nil.
    intros [?|[[= _ ->]|[[= _ ->]|[[= _ ->]|[[= _ ->]|[[= _ ->]
             |[[= _ ->]|[[= _ ->]|[]]]]]]]]]; auto;
      right; right; right; exists operator, from, amount, data, id0; auto.
  - cbn [settled staged acl with_events with_token].
    rewrite elem_of_app, !elem_of_cons, elem_of_nil.
    intros [?|[[= _ ->]|[[= _ ->]|[]]]]; auto.
Qed.

(** ** The attached data *)

Lemma be_uint_from (bs : list Byte.byte) acc :
  fold_left (fun a b => a * 256 + Z.of_N (Byte.to_N b)) bs acc
    = acc * 256 ^ Z.of_nat (length bs) + be_uint bs.
Proof.
  unfold be_uint. revert acc.
  induction bs as [|b bs IH]; intros acc; cbn [fold_left length].
  { cbn. lia. }
  rewrite IH, (IH (0 * 256 + _)), Nat2Z.inj_succ, Z.pow_succ_r by lia. lia.
Qed.

Lemma be_uint_range (bs : list Byte.byte) :
  0 <= be_uint bs < 256 ^ Z.of_nat (length bs).
Proof.
  induction bs as [|b bs IH]; [cbn; lia|].
  unfold be_uint. cbn [fold_left length]. rewrite be_uint_from.
  rewrite Nat2Z.inj_succ, Z.pow_succ_r by lia.
  pose proof (Byte.to_N_bounded b).
  assert (0 < 256 ^ Z.of_nat (length bs)) by (apply Z.pow_pos_nonneg; lia).
  nia.
Qed.

Lemma byte_of_digit v :
  0 <= v < 256 ->
  Z.of_N (Byte.to_N match Byte.of_N (Z.to_N v) with
                    | Some b => b
                    | None => Byte.x00
                    end) = v.
Proof.
  intros Hv. destruct (Byte.of_N (Z.to_N v)) as [b|] eqn:Hb.
  - apply Byte.to_of_N in Hb. rewrite Hb. lia.
  - apply Byte.of_N_None_iff in Hb. lia.
Qed.

Lemma be_uint_rev_digits n k m :
  0 <= n ->
  be_uint (rev (map (fun i : nat =>
                       match Byte.of_N
                               (Z.to_N ((n / 256 ^ Z.of_nat i) mod 256)) with
                       | Some b => b
                       | None => Byte.x00
                       end) (seq k m)))
    = (n / 256 ^ Z.of_nat k) mod 256 ^ Z.of_nat m.
Proof.
  intros Hn. revert k. induction m as [|m IH]; intros k.
  { cbn. rewrite Z.mod_1_r. reflexivity. }
  cbn [seq map rev]. unfold be_uint. rewrite fold_left_app. cbn [fold_left].
  fold (be_uint (rev (map (fun i : nat =>
                       match Byte.of_N
                               (Z.to_N ((n / 256 ^ Z.of_nat i) mod 256)) with
                       | Some b => b
                       | None => Byte.x00
                       end) (seq (S k) m)))).
  rewrite IH, byte_of_digit by (apply Z.mod_pos_bound; lia).
  rewrite !Nat2Z.inj_succ, !Z.pow_succ_r by lia.
  assert (H256 : 0 < 256 ^ Z.of_nat k) by (apply Z.pow_pos_nonneg; lia).
  assert (Hm : 0 < 256 ^ Z.of_nat m) by (apply Z.pow_pos_nonneg; lia).
  replace (n / (256 * 256 ^ Z.of_nat k)) with (n / 256 ^ Z.of_nat k / 256)
    by (rewrite Z.div_div by lia; f_equal; lia).
  rewrite (Z.rem_mul_r (n / 256 ^ Z.of_nat k) 256 (256 ^ Z.of_nat m)) by lia.
  lia.
Qed.

(** X12: the 32-byte big-endian word the clients attach to a transfer
    decodes back to the campaign id it was built from, whatever bytes
    follow it; fewer than 32 bytes do not decode, and a decoded id is
    always a 256-bit value.  So a callback with the encoding of an id that
    returns was called by the payment token for that campaign, which was
    active, and has logged the contribution and added the amount to the
    total under that id; and when that campaign is not active the callback
    reverts in the state it was called in. *)
Theorem abi_uint256_round_trip :
  (forall n extra,
     0 <= n <= uint256_max ->
     length (abi_encode_uint256 n) = 32%nat /\
     abi_decode_uint256 (abi_encode_uint256 n ++ extra) = Some n) /\
  (forall data, (length data < 32)%nat <-> abi_decode_uint256 data = None) /\
  (forall data id,
     abi_decode_uint256 data = Some id -> 0 <= id <= uint256_max) /\
  (forall env operator from amount n w,
     0 <= n <= uint256_max ->
     (forall flag w',
        onConfidentialTransferReceived env operator from amount
          (abi_encode_uint256 n) w = Success flag w' ->
        msg_sender env = paymentToken w /\
        isCampaignActive env n w = true /\
        events w' = (events w ++ [Contributed n from amount])%list /\
        totalRaised (campaign_at n w')
          = FHE_add (totalRaised (campaign_at n w)) amount) /\
     (isCampaignActive env n w = false ->
      exists e,
        onConfidentialTransferReceived env operator from amount
          (abi_encode_uint256 n) w = Reverted e w)).
Proof.
  assert (Hlen : forall n, length (abi_encode_uint256 n) = 32%nat).
  { intros n. unfold abi_encode_uint256.
    rewrite length_rev, length_map, length_seq. reflexivity. }
  assert (Hround : forall n extra,
            0 <= n <= uint256_max ->
            abi_decode_uint256 (abi_encode_uint256 n ++ extra) = Some n).
  { intros n extra Hn. unfold abi_decode_uint256.
    rewrite length_app, Hlen.
    replace (32 + length extra <? 32)%nat with false
      by (symmetry; apply Nat.ltb_ge; lia).
    rewrite <- (Hlen n) at 1. rewrite take_app_length.
    unfold abi_encode_uint256. rewrite be_uint_rev_digits by lia.
    cbn [Z.of_nat Z.pow]. rewrite Z.div_1_r.
    f_equal. apply Z.mod_small. unfold uint256_max in Hn.
    change (256 ^ Z.pos 32) with (2 ^ 256). lia. }
  split; [auto|]. split; [|split].
  - intros data. unfold abi_decode_uint256.
    destruct (length data <? 32)%nat eqn:Hl.
    + apply Nat.ltb_lt in Hl. split; [reflexivity|intros _; exact Hl].
    + apply Nat.ltb_ge in Hl. split; [lia|discriminate].
  - intros data id. unfold abi_decode_uint256.
    destruct (length data <? 32)%nat eqn:Hl; [discriminate|].
    intros [= <-]. apply Nat.ltb_ge in Hl.
    pose proof (be_uint_range (take 32 data)) as Hr.
    rewrite length_take, Nat.min_l in Hr by lia.
    change (256 ^ Z.of_nat 32) with (2 ^ 256) in Hr.
    unfold uint256_max. lia.
  - intros env operator from amount n w Hn.
    pose proof (Hround n [] Hn) as Hd. rewrite app_nil_r in Hd.
    split.
    + intros flag w' H.
      apply onConfidentialTransferReceived_success in H
        as (Hs & id & Hd' & Hc & He & Hdl & _ & ->).
      assert (id = n) as -> by congruence.
      split; [exact Hs|]. split; [|split; [reflexivity|]].
      * unfold isCampaignActive. cbv zeta.
        rewrite bool_decide_eq_false_2 by assumption. rewrite He.
        apply Z.leb_le in Hdl. rewrite Hdl. reflexivity.
      * rewrite campaign_at_contributed, decide_True by reflexivity.
        reflexivity.
    + intros Hactive.
      destruct (inactive_callback_reverts env operator from amount
                  (abi_encode_uint256 n) n w Hd Hactive) as (e & He & _).
      exists e. exact He.
Qed.

(** X13: the callback looks at the first 32 bytes of the attached data
    only, and when the payment token calls it with fewer than 32 bytes it
    reverts without a reason, in the state it was called in. *)
Theorem callback_reads_first_word env operator from amount data w :
  ((32 <= length data)%nat ->
   onConfidentialTransferReceived env operator from amount data w
     = match onConfidentialTransferReceived env operator from amount
               (take 32 data) w with
       | Success flag w' => Success flag w'
       | Reverted e w' => Reverted e w'
       end) /\
  ((length data < 32)%nat -> msg_sender env = paymentToken w ->
   onConfidentialTransferReceived env operator from amount data w
     = Reverted Empty w).
Proof.
  split.
  - intros Hl. rewrite !onConfidentialTransferReceived_eq.
    assert (abi_decode_uint256 (take 32 data) = abi_decode_uint256 data) as ->.
    { unfold abi_decode_uint256. rewrite length_take, Nat.min_l by lia.
      replace (length data <? 32)%nat with false
        by (symmetry; apply Nat.ltb_ge; lia).
      rewrite take_take, Nat.min_id. reflexivity. }
    cbv zeta. repeat case_match; reflexivity.
  - intros Hl Hs. rewrite onConfidentialTransferReceived_eq.
    rewrite bool_decide_eq_true_2 by assumption. cbn [negb].
    unfold abi_decode_uint256.
    apply Nat.ltb_lt in Hl. rewrite Hl. reflexivity.
Qed.

(** ** Campaigns do not interfere *)

(** X17: a transaction changes what [getCampaign] returns for an id only
    when it creates that id, is a callback carrying that id or ends that
    campaign, and it changes what [contributionOf] returns for an id and a
    user only when it is a callback carrying that id whose [from] is that
    user. *)
Theorem campaigns_are_isolated tx w id :
  let w' := (transact confidentialTransfer tx w).1 in
  (getCampaign id w' = getCampaign id w \/
   (exists nm tg dl,
      tx.2 = CreateCampaign nm tg dl /\ id = campaignCount w + 1) \/
   (exists operator from amount data,
      tx.2 = OnConfidentialTransferReceived operator from amount data /\
      abi_decode_uint256 data = Some id) \/
   tx.2 = EndCampaign id) /\
  (forall user,
     contributionOf id user w' = contributionOf id user w \/
     exists operator amount data,
       tx.2 = OnConfidentialTransferReceived operator user amount data /\
       abi_decode_uint256 data = Some id).
Proof.
  cbv zeta. unfold getCampaign, contributionOf.
  destruct (transact_cases confidentialTransfer tx w)
    as [[e ->]|[(env & nm & tg & dl & -> & _ & ->)
       |[(env & operator & from & amount & data & id0 & -> & Hd & _ & _ & ->)
        |(env & id0 & -> & _ & _ & ->)]]]; cbn [fst snd]; [auto|..].
  - split; [|intros user; left; reflexivity].
    rewrite campaign_at_created.
    destruct (decide (campaignCount w + 1 = id)) as [<-|_]; [|auto].
    right; left. exists nm, tg, dl. auto.
  - split.
    + rewrite campaign_at_contributed.
      destruct (decide (id0 = id)) as [<-|_]; [|auto].
      right; right; left. exists operator, from, amount, data. auto.
    + intros user. rewrite contribution_at_contributed.
      destruct (decide ((id0, from) = (id, user))) as [[= <- <-]|_]; [|auto].
      right. exists operator, amount, data. auto.
  - split; [|intros user; left; reflexivity].
    rewrite campaign_at_settled.
    destruct (decide (id0 = id)) as [<-|_]; auto.
Qed.

End Coverage.

(** ** The amounts the client sends *)

Lemma dropWhile_app_true {A} (f : A -> bool) ws l :
  forallb f ws = true -> dropWhile f (ws ++ l) = dropWhile f l.
Proof.
  induction ws as [|c ws IH]; cbn [forallb app dropWhile]; [reflexivity|].
  intros [-> Hws]%andb_prop. auto.
Qed.

Lemma dropWhile_all {A} (f : A -> bool) ws :
  forallb f ws = true -> dropWhile f ws = [].
Proof.
  intros H. rewrite <- (app_nil_r ws), dropWhile_app_true by assumption.
  reflexivity.
Qed.

Lemma forallb_rev {A} (f : A -> bool) l :
  forallb f (rev l) = forallb f l.
Proof.
  induction l as [|x l IH]; [reflexivity|].
  cbn [rev forallb]. rewrite forallb_app, IH. cbn [forallb].
  rewrite andb_true_r. apply andb_comm.
Qed.

Lemma digit_not_whitespace c : is_digit c = true -> is_whitespace c = false.
Proof.
  unfold is_digit, is_whitespace.
  intros [H1%Z.leb_le H2%Z.leb_le]%andb_prop.
  apply orb_false_iff. split.
  - apply bool_decide_eq_false_2.
    rewrite !elem_of_cons, elem_of_nil. lia.
  - apply andb_false_iff. left. apply Z.leb_gt. lia.
Qed.

Lemma dropWhile_digits ds :
  forallb is_digit ds = true -> dropWhile is_whitespace ds = ds.
Proof.
  destruct ds as [|d ds]; [reflexivity|]. cbn [forallb dropWhile].
  intros [Hd _]%andb_prop. rewrite (digit_not_whitespace d Hd). reflexivity.
Qed.

Lemma trim_padded ws1 ds ws2 :
  forallb is_whitespace ws1 = true -> forallb is_whitespace ws2 = true ->
  ds <> [] -> forallb is_digit ds = true ->
  trim (ws1 ++ ds ++ ws2) = ds.
Proof.
  intros H1 H2 Hne Hds. unfold trim.
  rewrite dropWhile_app_true by assumption.
  assert (dropWhile is_whitespace (ds ++ ws2) = (ds ++ ws2)%list) as ->.
  { destruct ds as [|d ds]; [contradiction|]. cbn [forallb] in Hds.
    apply andb_prop in Hds as [Hd _]. cbn [app dropWhile].
    rewrite (digit_not_whitespace d Hd). reflexivity. }
  rewrite rev_app_distr, dropWhile_app_true by (rewrite forallb_rev; exact H2).
  rewrite dropWhile_digits by (rewrite forallb_rev; exact Hds).
  apply rev_involutive.
Qed.

Lemma trim_blank ws : forallb is_whitespace ws = true -> trim ws = [].
Proof.
  intros H. unfold trim. rewrite (dropWhile_all _ ws H). reflexivity.
Qed.

Lemma digits_from_spec fuel n acc :
  0 <= n < 10 ^ Z.of_nat fuel -> (0 < fuel)%nat ->
  exists ds,
    digits_from fuel n acc = (ds ++ acc)%list /\
    ds <> [] /\
    forallb is_digit ds = true /\
    forall a,
      fold_left (fun acc c => acc * 10 + (c - 48)) ds a
        = a * 10 ^ Z.of_nat (length ds) + n.
Proof.
  revert n acc. induction fuel as [|fuel IH]; intros n acc Hn Hf; [lia|].
  cbn [digits_from]. cbv zeta.
  pose proof (Z.mod_pos_bound n 10 ltac:(lia)) as Hmod.
  assert (Hdigit : is_digit (48 + n mod 10) = true).
  { unfold is_digit. apply andb_true_intro. split; apply Z.leb_le; lia. }
  destruct (n <? 10) eqn:Hlt.
  - apply Z.ltb_lt in Hlt. exists [48 + n mod 10].
    split; [reflexivity|]. split; [discriminate|].
    split; [cbn [forallb]; rewrite Hdigit; reflexivity|].
    intros a. cbn [fold_left length]. rewrite Z.mod_small by lia.
    change (10 ^ Z.of_nat 1) with 10. lia.
  - apply Z.ltb_ge in Hlt.
    rewrite Nat2Z.inj_succ, Z.pow_succ_r in Hn by lia.
    assert (Hq : 0 <= n / 10 < 10 ^ Z.of_nat fuel).
    { split; [apply Z.div_pos; lia|apply Z.div_lt_upper_bound; lia]. }
    assert (Hfuel : (0 < fuel)%nat).
    { destruct fuel; [|lia]. cbn in Hn. lia. }
    destruct (IH (n / 10) ((48 + n mod 10) :: acc) Hq Hfuel)
      as (ds & -> & _ & Hds & Hval).
    exists (ds ++ [48 + n mod 10])%list.
    split; [rewrite <- app_assoc; reflexivity|].
    split; [destruct ds; discriminate|].
    split; [rewrite forallb_app, Hds; cbn [forallb]; rewrite Hdigit;
            reflexivity|].
    intros a. rewrite fold_left_app, Hval. cbn [fold_left].
    rewrite length_app, Nat2Z.inj_add. cbn [length].
    change (Z.of_nat 1) with 1. rewrite Z.pow_add_r, Z.pow_1_r by lia.
    pose proof (Z.div_mod n 10 ltac:(lia)). lia.
Qed.

Lemma toString_spec n :
  0 <= n ->
  toString n <> [] /\
  forallb is_digit (toString n) = true /\
  BigInt_of_digits (toString n) = n.
Proof.
  intros Hn. unfold toString.
  assert (Hfuel : 0 <= n < 10 ^ Z.of_nat (S (Z.to_nat (Z.log2 n)))).
  { split; [exact Hn|].
    rewrite Nat2Z.inj_succ, Z2Nat.id by apply Z.log2_nonneg.
    destruct (Z.eq_dec n 0) as [->|Hnz]; [cbn; lia|].
    pose proof (Z.log2_spec n ltac:(lia)) as [_ Hlog].
    apply Z.lt_le_trans with (1 := Hlog).
    apply Z.pow_le_mono_l. pose proof (Z.log2_nonneg n). lia. }
  destruct (digits_from_spec _ n [] Hfuel ltac:(lia))
    as (ds & -> & Hne & Hds & Hval).
  rewrite app_nil_r. split; [exact Hne|]. split; [exact Hds|].
  unfold BigInt_of_digits. rewrite Hval. lia.
Qed.

Lemma BigInt_leading_zeros k ds :
  BigInt_of_digits (repeat 48 k ++ ds) = BigInt_of_digits ds.
Proof.
  unfold BigInt_of_digits. rewrite fold_left_app. f_equal.
  induction k as [|k IH]; [reflexivity|]. cbn [repeat fold_left]. exact IH.
Qed.

Lemma all_digits_spec s :
  all_digits s = true <-> s <> [] /\ forall c, c ∈ s -> is_digit c = true.
Proof.
  unfold all_digits. destruct s as [|c s].
  - split; [discriminate|intros [H _]; contradiction].
  - rewrite forallb_forall. split.
    + intros H. split; [discriminate|].
      intros c' Hc. apply H, list_elem_of_In, Hc.
    + intros [_ H] c' Hc. apply H, list_elem_of_In, Hc.
Qed.

Lemma forallb_false_elem {A} (f : A -> bool) l :
  forallb f l = false -> exists c, c ∈ l /\ f c = false.
Proof.
  induction l as [|x l IH]; cbn [forallb]; [discriminate|].
  destruct (f x) eqn:Hx; cbn [andb].
  - intros (c & Hc & Hf)%IH. exists c. split; [right; exact Hc|exact Hf].
  - intros _. exists x. split; [left|exact Hx].
Qed.

(** X14: the amount parser reads decimal numerals.  The decimal digits of
    a number, as the client prints an amount, with any leading zeros and
    any white space around them, parse to that number when it lies between
    1 and 2^64 - 1; zero is refused as not greater than zero and anything
    above as out of range. *)
Theorem parseUint64_reads_decimal n ws1 zeros ws2 :
  0 <= n ->
  forallb is_whitespace ws1 = true -> forallb is_whitespace ws2 = true ->
  parseUint64 (ws1 ++ repeat 48 zeros ++ toString n ++ ws2)
    = if n =? 0 then Throws "Amount must be greater than zero."
      else if UINT64_MAX <? n then Throws "Amount exceeds uint64 range."
      else Value n.
Proof.
  intros Hn H1 H2. destruct (toString_spec n Hn) as (Hne & Hds & Hval).
  unfold parseUint64. cbv zeta.
  rewrite (app_assoc (repeat 48 zeros)).
  rewrite trim_padded; [|assumption|assumption| |].
  - assert (all_digits (repeat 48 zeros ++ toString n) = true) as ->.
    { apply all_digits_spec. split.
      - destruct zeros; [exact Hne|discriminate].
      - intros c [Hc|Hc]%elem_of_app.
        + apply list_elem_of_In, repeat_spec in Hc. subst c. reflexivity.
        + rewrite forallb_forall in Hds. apply Hds, list_elem_of_In, Hc. }
    cbn [negb]. rewrite BigInt_leading_zeros, Hval.
    destruct (n =? 0) eqn:Hz.
    + apply Z.eqb_eq in Hz. subst n. reflexivity.
    + apply Z.eqb_neq in Hz.
      assert ((n <=? 0) = false) as -> by (apply Z.leb_gt; lia).
      reflexivity.
  - destruct zeros; [|discriminate]. cbn [repeat app]. exact Hne.
  - rewrite forallb_app, Hds, andb_true_r.
    apply forallb_forall. intros c Hc%repeat_spec. subst c. reflexivity.
Qed.

(** X15: whatever the parser returns is an integer from 1 to 2^64 - 1,
    the decimal value of the trimmed input, which consists of digits only.
    Sent as the target of a creation it is never refused as a missing
    target, and the stored encrypted target decrypts to exactly that
    number. *)
Theorem parsed_target_is_stored {Ledger} raw v env nm dl (w : World Ledger) :
  parseUint64 raw = Value v ->
  1 <= v <= UINT64_MAX /\
  v = BigInt_of_digits (trim raw) /\
  (forall c, c ∈ trim raw -> 48 <= c <= 57) /\
  createCampaign env nm v dl w <> Reverted (Error "Target required") w /\
  (forall id w',
     createCampaign env nm v dl w = Success id w' ->
     decrypt (target (campaign_at id w')) = v /\
     decrypt (totalRaised (campaign_at id w')) = 0).
Proof.
  unfold parseUint64. cbv zeta.
  destruct (all_digits (trim raw)) eqn:Hd; cbn [negb]; [|discriminate].
  destruct (BigInt_of_digits (trim raw) <=? 0) eqn:Hpos; [discriminate|].
  destruct (UINT64_MAX <? BigInt_of_digits (trim raw)) eqn:Hmax;
    [discriminate|].
  intros [= <-]. apply Z.leb_gt in Hpos. apply Z.ltb_ge in Hmax.
  set (v := BigInt_of_digits (trim raw)) in *.
  split; [lia|]. split; [reflexivity|]. split; [|split].
  - apply all_digits_spec in Hd as [_ Hd]. intros c Hc.
    specialize (Hd c Hc). unfold is_digit in Hd.
    apply andb_prop in Hd as [?%Z.leb_le ?%Z.leb_le]. lia.
  - rewrite createCampaign_eq.
    assert ((0 <? v) = true) as -> by (apply Z.ltb_lt; lia). cbn [negb].
    repeat case_match; discriminate.
  - intros id w' H.
    apply createCampaign_success in H as (_ & _ & _ & _ & -> & ->).
    rewrite campaign_at_created, decide_True by reflexivity.
    cbn [target totalRaised]. unfold FHE_asEuint64. cbn [decrypt].
    unfold UINT64_MAX in Hmax. unfold uint64_modulus.
    rewrite Z.mod_small by lia. split; reflexivity.
Qed.

(** X16: an input that is empty or white space only, or that has any
    character other than a digit left after trimming (a sign, a decimal
    point, an inner space), is refused as not a whole number, and nothing
    else is. *)
Theorem parseUint64_rejects_non_numerals raw :
  (parseUint64 raw = Throws "Enter a whole number amount." <->
   trim raw = [] \/ exists c, c ∈ trim raw /\ ~ 48 <= c <= 57) /\
  (forallb is_whitespace raw = true ->
   parseUint64 raw = Throws "Enter a whole number amount.").
Proof.
  split; [|intros H; unfold parseUint64; rewrite (trim_blank raw H);
           reflexivity].
  unfold parseUint64. cbv zeta.
  destruct (all_digits (trim raw)) eqn:Hd; cbn [negb].
  - apply all_digits_spec in Hd as [Hne Hd]. split.
    + repeat case_match; discriminate.
    + intros [He|(c & Hc & Hn)]; [contradiction|].
      specialize (Hd c Hc). unfold is_digit in Hd.
      apply andb_prop in Hd as [?%Z.leb_le ?%Z.leb_le]. lia.
  - split; [intros _|reflexivity].
    destruct (trim raw) as [|c0 s] eqn:Ht; [left; reflexivity|right].
    unfold all_digits in Hd.
    apply forallb_false_elem in Hd as (c & Hc & Hnd). exists c.
    split; [exact Hc|].
    unfold is_digit in Hnd. intros [? ?].
    assert ((48 <=? c) = true) as H48 by (apply Z.leb_le; lia).
    assert ((c <=? 57) = true) as H57 by (apply Z.leb_le; lia).
    rewrite H48, H57 in Hnd. discriminate.
Qed.

(** * Worked examples *)

Lemma createCampaign_rejects_invalid_witness :
  exists reason,
    createCampaign (at_time alice 10) EmptyString 1000 3610 fresh
      = Reverted (Error reason) fresh /\
    reason = "Name required" /\
    error_kind reason = Some ValidationError /\
    (transact journal_transfer
       (at_time alice 10, CreateCampaign EmptyString 1000 3610) fresh).1 = fresh.
Proof.
  apply (createCampaign_rejects_invalid journal_transfer
           (at_time alice 10) EmptyString 1000 3610 fresh).
  left. reflexivity.
Defined.

Lemma onConfidentialTransferReceived_rejects_witness :
  onConfidentialTransferReceived (at_time token_address 4000) bob bob
      (Input 1 750) one launched
    = Reverted (Error "Campaign expired") launched.
Proof.
  pose proof (onConfidentialTransferReceived_rejects journal_transfer
                (at_time token_address 4000) bob bob (Input 1 750) one
                launched) as H.
  cbv zeta in H. destruct H as (_ & H & _).
  apply (H 1); [reflexivity|reflexivity|discriminate|reflexivity|reflexivity].
Defined.

Lemma onConfidentialTransferReceived_flag_witness :
  decrypt_bool (FHE_asEbool true) = true /\
  isAllowed (HBool (FHE_asEbool true)) token_address funded = true.
Proof.
  pose proof (onConfidentialTransferReceived_flag
                (at_time token_address 20) bob bob (Input 1 750) one launched
                (FHE_asEbool true) funded) as H.
  destruct H as (_ & Hd & Ha & _); [vm_compute; reflexivity|].
  split; [exact Hd|exact Ha].
Defined.


Lemma endCampaign_stages_before_transfer_witness :
  endCampaign_calling (probing (at_time alice 30) 1) (at_time alice 30) 1
      funded_probed
    = endCampaign_calling
        (noting (inl (Error "Campaign already ended")))
        (at_time alice 30) 1 funded_probed.
Proof.
  pose proof (endCampaign_stages_before_transfer
                (fun _ _ amount (l : Probes) => (amount, l))
                (at_time alice 30) 1 funded_probed) as H.
  cbv zeta in H.
  destruct H as (_ & _ & _ & H & _);
    [vm_compute; discriminate|vm_compute; reflexivity
    |vm_compute; reflexivity|].
  exact (H quiet (at_time alice 30) noting).
Defined.

(** C5 as stated fails: the token calls [endCampaign] back from inside the
    transfer of a settlement; it is not the creator, so the call is turned
    away by the creator check, before the flag is looked at, and what the
    token records is "Only creator". *)
Lemma reentrant_endCampaign_counterexample :
  match endCampaign_calling (probing (at_time token_address 30) 1)
          (at_time alice 30) 1 funded_probed with
  | Success moved w' =>
      token w' = [inl (Error "Only creator")] /\
      moved = Add (Trivial 0) (Input 1 750) /\
      ended (campaign_at 1 w') = true
  | Reverted _ _ => False
  end /\
  error_kind "Only creator" = Some AuthorizationError /\
  error_kind "Only creator" <> Some AlreadyEndedError.
Proof.
  split; [vm_compute; repeat split|].
  split; [reflexivity|discriminate].
Qed.

Lemma grants_accompany_mutations_witness :
  isAllowed (H64 (totalRaised (campaign_at 1 funded))) alice funded = true /\
  isAllowed (H64 (contributionOf 1 bob funded)) bob funded = true.
Proof.
  destruct (grants_accompany_mutations journal_transfer) as (_ & H & _).
  destruct (H (at_time token_address 20) bob bob (Input 1 750) one launched
              (FHE_asEbool true) funded 1)
    as (_ & Hc & _ & _ & Hb); [vm_compute; reflexivity|reflexivity|].
  split; [exact Hc|exact Hb].
Defined.

Lemma contribution_entries_persist_witness :
  contributionOf 1 bob (settled journal_transfer (at_time alice 30) 1 funded)
    = contributionOf 1 bob funded.
Proof.
  destruct (contribution_entries_persist journal_transfer) as (H & _).
  destruct (H (at_time alice 30) 1 funded (Add (Trivial 0) (Input 1 750))
              (settled journal_transfer (at_time alice 30) 1 funded))
    as (_ & _ & _ & _ & _ & _ & _ & _ & Hkeep); [vm_compute; reflexivity|].
  apply Hkeep.
Defined.

(** C9 as stated fails: an accepted contribution takes Bob's entry from
    2^63 down to 0 when its amount makes the 64-bit sum wrap around. *)
Lemma contribution_lowers_entry_counterexample :
  let before := run journal_transfer [launch; pledge half 20] fresh in
  let after := (transact journal_transfer (pledge half 21) before).1 in
  (transact journal_transfer (pledge half 21) before).2
    = inr (ReturnedFlag (FHE_asEbool true)) /\
  decrypt (contributionOf 1 bob before) = 2 ^ 63 /\
  decrypt (contributionOf 1 bob after) = 0 /\
  decrypt (contributionOf 1 bob after) < decrypt (contributionOf 1 bob before).
Proof. vm_compute. repeat split. Qed.

Lemma campaign_ids_increase_witness :
  2 = Z.of_nat (length (created_ids journal_transfer [launch] fresh)) + 1 /\
  _campaigns launched !! 2 = None.
Proof.
  destruct (campaign_ids_increase journal_transfer engine_address
              token_address [] [launch] (at_time bob 11) "Second" 500 3000 2
              (created (at_time bob 11) "Second" 500 3000 launched))
    as (Hid & _ & _ & Hfree & _); [vm_compute; reflexivity|].
  split; [exact Hid|exact Hfree].
Defined.

Lemma campaign_lifecycle_witness :
  ended (campaign_at 1
           (run journal_transfer
              ([launch; pledge (Input 1 750) 20;
                (at_time alice 30, EndCampaign 1)]
               ++ [pledge (Input 3 5) 50; (at_time alice 60, EndCampaign 1)])
              fresh)) = true.
Proof.
  destruct (campaign_lifecycle journal_transfer engine_address token_address
              [] 1) as (_ & H & _).
  apply (H [launch; pledge (Input 1 750) 20; (at_time alice 30, EndCampaign 1)]
           [pledge (Input 3 5) 50; (at_time alice 60, EndCampaign 1)]).
  vm_compute; reflexivity.
Defined.

(** C4 as stated fails: a contribution, which is not a settlement, lowers
    the decrypted total from 2^63 to 0 when its amount makes the 64-bit sum
    wrap around. *)
Lemma contribution_lowers_total_counterexample :
  let before := run journal_transfer [launch; pledge half 20] fresh in
  let after := (transact journal_transfer (pledge half 21) before).1 in
  settles journal_transfer 1 (pledge half 21) before = false /\
  (transact journal_transfer (pledge half 21) before).2
    = inr (ReturnedFlag (FHE_asEbool true)) /\
  decrypt (totalRaised (campaign_at 1 before)) = 2 ^ 63 /\
  decrypt (totalRaised (campaign_at 1 after)) = 0 /\
  decrypt (totalRaised (campaign_at 1 after))
    < decrypt (totalRaised (campaign_at 1 before)).
Proof. vm_compute. repeat split. Qed.

Lemma totals_accumulate_modulo_witness :
  decrypt (totalRaised (campaign_at 1 funded)) = 750 /\
  decrypt (contributionOf 1 bob funded) = 750.
Proof.
  destruct (totals_accumulate_modulo journal_transfer engine_address
              token_address [] [launch; pledge (Input 1 750) 20] 1 bob)
    as (Ht & _ & He & _).
  destruct (Ht eq_refl) as [_ Hexact].
  split; [apply Hexact|apply He]; vm_compute; reflexivity.
Defined.

(** C1 as stated fails: both pledges of 2^63 are accepted by a campaign that
    exists, is not ended and has not expired; the accepted amounts sum to
    2^64, while the total and Bob's entry decrypt to 0. *)
Lemma totals_are_not_exact_sums_counterexample :
  let w := run journal_transfer overflowing fresh in
  let log := accepted journal_transfer overflowing fresh in
  log = [(1, bob, half); (1, bob, half)] /\
  isCampaignActive (at_time token_address 21) 1 w = true /\
  sum_amounts (amounts_to 1 log) = 2 ^ 64 /\
  decrypt (totalRaised (campaign_at 1 w)) = 0 /\
  decrypt (totalRaised (campaign_at 1 w)) <> sum_amounts (amounts_to 1 log) /\
  sum_amounts (amounts_of 1 bob log) = 2 ^ 64 /\
  decrypt (contributionOf 1 bob w) = 0 /\
  decrypt (contributionOf 1 bob w) <> sum_amounts (amounts_of 1 bob log).
Proof. vm_compute. repeat split; discriminate. Qed.

(** ** The rest of the surface, on the sample campaign *)

Lemma createCampaign_stores_record_witness :
  getCampaign 1 (created (at_time alice 10) "Test Launch" 1000 3610 fresh)
    = ("Test Launch"%string, FHE_asEuint64 1000, 3610, false,
       FHE_asEuint64 0, alice).
Proof.
  destruct (createCampaign_stores_record
              (at_time alice 10) "Test Launch" 1000 3610 fresh)
    as (_ & H & _).
  destruct (H 1 (created (at_time alice 10) "Test Launch" 1000 3610 fresh))
    as (_ & _ & Hg & _); [vm_compute; reflexivity|].
  exact Hg.
Defined.

Lemma unknown_campaign_reads_zero_witness :
  getCampaign 2 launched
    = (EmptyString, Uninit, 0, false, Uninit, address_zero) /\
  endCampaign journal_transfer (at_time alice 30) 2 launched
    = Reverted (Error "Campaign not found") launched.
Proof.
  pose proof (unknown_campaign_reads_zero journal_transfer
                engine_address token_address [] [launch] 2) as H.
  cbv zeta in H.
  destruct H as (Hg & _ & _ & He & _); [right; vm_compute; reflexivity|].
  split; [exact Hg|exact (He (at_time alice 30))].
Defined.

Lemma campaign_ids_enumerated_witness :
  campaignIds (Some (campaignCount launched))
    = created_ids journal_transfer [launch] fresh.
Proof.
  pose proof (campaign_ids_enumerated journal_transfer
                engine_address token_address [] [launch]) as H.
  cbv zeta in H. destruct H as (_ & H & _); [vm_compute; reflexivity|].
  exact H.
Defined.

Lemma campaign_metadata_immutable_witness :
  exists campaign',
    _campaigns funded !! 1 = Some campaign' /\
    name campaign' = name (campaign_at 1 launched) /\
    target campaign' = target (campaign_at 1 launched) /\
    deadline campaign' = deadline (campaign_at 1 launched) /\
    creator campaign' = creator (campaign_at 1 launched).
Proof.
  apply (campaign_metadata_immutable journal_transfer
           engine_address token_address [] [launch] [pledge (Input 1 750) 20]
           1 (campaign_at 1 launched)).
  vm_compute. reflexivity.
Defined.

Lemma contribution_accepted_only_if_active_witness :
  exists e,
    onConfidentialTransferReceived (at_time token_address 4000) bob bob
        (Input 1 750) one launched
      = Reverted e launched /\
    (msg_sender (at_time token_address 4000) = paymentToken launched ->
     e = Error "Campaign not found" \/ e = Error "Campaign already ended" \/
     e = Error "Campaign expired").
Proof.
  destruct (contribution_accepted_only_if_active
              (at_time token_address 4000) bob bob (Input 1 750) one launched)
    as (_ & H).
  apply (H 1); vm_compute; reflexivity.
Defined.

Lemma inactive_stays_inactive_witness :
  isCampaignActive (at_time alice 40) 1
    (run journal_transfer
       ([launch; pledge (Input 1 750) 20; (at_time alice 30, EndCampaign 1)]
        ++ [pledge (Input 3 5) 40]) fresh)
    = false.
Proof.
  pose proof (inactive_stays_inactive journal_transfer
                engine_address token_address []
                [launch; pledge (Input 1 750) 20;
                 (at_time alice 30, EndCampaign 1)]
                [pledge (Input 3 5) 40] 1
                (at_time alice 30) (at_time alice 40)) as H.
  cbv zeta in H. destruct H as (H & _).
  - exists (campaign_at 1
              (run journal_transfer
                 [launch; pledge (Input 1 750) 20;
                  (at_time alice 30, EndCampaign 1)] fresh)).
    vm_compute. reflexivity.
  - vm_compute. reflexivity.
  - vm_compute. discriminate.
  - exact H.
Defined.

Lemma only_deployment_token_contributes_witness :
  onConfidentialTransferReceived (at_time bob 20) bob bob (Input 1 750) one
      launched
    = Reverted (Error "Unsupported token") launched.
Proof.
  pose proof (only_deployment_token_contributes journal_transfer
                engine_address token_address [] [launch]
                (at_time bob 20) bob bob (Input 1 750) one) as H.
  cbv zeta in H. destruct H as (_ & _ & _ & H).
  apply H. vm_compute. discriminate.
Defined.

Lemma payout_is_accumulated_total_witness :
  exists captured,
    captured = totalRaised (campaign_at 1 funded) /\
    decrypt captured = 750.
Proof.
  destruct (payout_is_accumulated_total journal_transfer
              engine_address token_address []
              [launch; pledge (Input 1 750) 20] (at_time alice 30) 1
              (Add (Trivial 0) (Input 1 750))
              (settled journal_transfer (at_time alice 30) 1 funded))
    as (captured & Hc & _ & _ & Hd); [vm_compute; reflexivity|].
  exists captured. split; [exact Hc|].
  rewrite Hd; vm_compute; reflexivity.
Defined.

Lemma grants_only_to_parties_witness :
  let h := H64 (totalRaised (campaign_at 1 funded)) in
  (h, alice) ∈ acl launched \/
  alice = this launched \/
  alice = msg_sender (pledge (Input 1 750) 20).1 \/
  exists operator from amount data id,
    (pledge (Input 1 750) 20).2
      = OnConfidentialTransferReceived operator from amount data /\
    abi_decode_uint256 data = Some id /\
    (alice = from \/ alice = creator (campaign_at id launched)).
Proof.
  apply (grants_only_to_parties journal_transfer
           (pledge (Input 1 750) 20) launched).
  apply (bool_decide_eq_true_1
           ((H64 (totalRaised (campaign_at 1 funded)), alice)
              ∈ acl (transact journal_transfer (pledge (Input 1 750) 20)
                       launched).1)).
  vm_compute. reflexivity.
Defined.

Lemma abi_uint256_round_trip_witness :
  abi_decode_uint256 (abi_encode_uint256 1 ++ [Byte.xff]) = Some 1 /\
  events funded = (events launched ++ [Contributed 1 bob (Input 1 750)])%list.
Proof.
  destruct (@abi_uint256_round_trip Journal) as (H & _ & _ & Hcall).
  split; [apply H; vm_compute; split; discriminate|].
  destruct (Hcall (at_time token_address 20) bob bob (Input 1 750) 1 launched)
    as (Hdone & _); [vm_compute; split; discriminate|].
  destruct (Hdone (FHE_asEbool true) funded) as (_ & _ & He & _);
    [vm_compute; reflexivity|].
  exact He.
Defined.

Lemma callback_reads_first_word_witness :
  onConfidentialTransferReceived (at_time token_address 20) bob bob
      (Input 1 750) [] launched
    = Reverted Empty launched.
Proof.
  destruct (callback_reads_first_word (at_time token_address 20) bob bob
              (Input 1 750) [] launched) as (_ & H).
  apply H; [vm_compute; lia|reflexivity].
Defined.

Lemma parseUint64_reads_decimal_witness :
  parseUint64 ([32] ++ repeat 48 2 ++ toString 750 ++ [10]) = Value 750.
Proof.
  apply (parseUint64_reads_decimal 750 [32] 2 [10]);
    [lia|reflexivity|reflexivity].
Defined.

Lemma parsed_target_is_stored_witness :
  1 <= 1000 <= UINT64_MAX /\
  decrypt (target (campaign_at 1 launched)) = 1000.
Proof.
  destruct (parsed_target_is_stored (of_ascii " 1000 ") 1000
              (at_time alice 10) "Test Launch" 3610 fresh)
    as (Hr & _ & _ & _ & H); [vm_compute; reflexivity|].
  split; [exact Hr|].
  apply (H 1 launched). vm_compute. reflexivity.
Defined.

Lemma parseUint64_rejects_non_numerals_witness :
  parseUint64 (of_ascii "-5") = Throws "Enter a whole number amount." /\
  parseUint64 (of_ascii "  ") = Throws "Enter a whole number amount.".
Proof.
  split.
  - destruct (parseUint64_rejects_non_numerals (of_ascii "-5")) as (H & _).
    apply H. right. exists 45. split; [vm_compute; left|lia].
  - destruct (parseUint64_rejects_non_numerals (of_ascii "  ")) as (_ & H).
    apply H. vm_compute. reflexivity.
Defined.

(** ** The scenarios of the repository's test suite *)

Example abi_roundtrip :
  abi_decode_uint256 (abi_encode_uint256 1) = Some 1 /\
  abi_decode_uint256 (abi_encode_uint256 (2 ^ 255 + 5)) = Some (2 ^ 255 + 5) /\
  abi_decode_uint256 (take 31 (abi_encode_uint256 1)) = None.
Proof. vm_compute. repeat split. Qed.

(** "creates campaigns and tracks encrypted contributions": after a
    contribution of 750 to a campaign with target 1000, the total and the
    contributor's entry both decrypt to 750. *)
Example test_tracks_contributions :
  let '(_, _, _, isEnded, total, campaignCreator) := getCampaign 1 funded in
  campaignCreator = alice /\ isEnded = false /\ decrypt total = 750 /\
  decrypt (contributionOf 1 bob funded) = 750 /\
  isAllowed (H64 total) alice funded = true /\
  isAllowed (H64 (contributionOf 1 bob funded)) bob funded = true.
Proof. vm_compute. repeat split. Qed.

(** "lets creator end a campaign and receive encrypted payout": with target
    500 and a contribution of 400, ending the campaign asks the token for
    one transfer, from the contract to the creator, of a handle that
    decrypts to 400, and leaves a zero total behind. *)
Example test_payout :
  let txs := [(at_time alice 10, CreateCampaign "Payout Test" 500 3610);
              pledge (Input 1 400) 20;
              (at_time alice 30, EndCampaign 1)] in
  let w := run journal_transfer txs fresh in
  map (fun t => (t.1, decrypt t.2)) (token w)
    = [(engine_address, alice, 400)] /\
  ended (campaign_at 1 w) = true /\
  decrypt (totalRaised (campaign_at 1 w)) = 0 /\
  decrypt (contributionOf 1 bob w) = 400.
Proof. vm_compute. repeat split. Qed.
